(** * redisgo: a shallow embedding of main.go

    The store ([DB.Set], [DB.Get], [DB.Del]), its append-only file
    ([DB.appendAOF], [DB.loadAOF]), the expiry worker, the snapshot and
    the connection handler of main.go, as Rocq functions over an explicit
    state, followed by the properties of the specification.

    Conventions.
    - A Go [string] is a [string] (a sequence of 8-bit characters).
    - A Go [[]byte] is an [option string]: [None] is the nil slice.
    - [int64] values are integers of [Z]; where Go's arithmetic can wrap
      around, [wrap64] is written out.
    - The mutexes are not modelled: every operation of main.go runs under
      [db.mu], so operations are atomic steps on the state. *)

From Stdlib Require Import ZArith String Ascii List Bool Lia DecimalString.
From stdpp Require Import base option gmap strings list fin_maps sorting.

Local Open Scope string_scope.
Local Open Scope Z_scope.

(** ** Machine integers *)

Definition wrap64 (z : Z) : Z := (z + 2 ^ 63) mod 2 ^ 64 - 2 ^ 63.

Definition byte_val (c : ascii) : Z := Z.of_N (N_of_ascii c).
Definition byte_of (z : Z) : ascii := ascii_of_N (Z.to_N z).

(** ** Package time

    A [Time] is an instant, counted in nanoseconds from Go's zero Time
    (January 1, year 1, 00:00:00 UTC); the zero Time is [0].  The clock
    is an input of the model: every function that calls [time.Now()]
    takes the value read as its argument [now]. *)

Module time.

Definition Duration := Z.
Definition Time := Z.

Definition Nanosecond : Duration := 1.
Definition Millisecond : Duration := 1000000.
Definition Second : Duration := 1000000000.

Definition zero : Time := 0.
Definition IsZero (t : Time) : bool := t =? 0.
Definition After (t u : Time) : bool := u <? t.
Definition Add (t : Time) (d : Duration) : Time := t + d.

(** Seconds from the zero Time to January 1, 1970 UTC. *)
Definition unixToInternal : Z :=
  (1969 * 365 + 1969 / 4 - 1969 / 100 + 1969 / 400) * 86400.

(** [UnixNano] is computed in int64: seconds since 1970 times 1e9,
    plus the nanoseconds within the second. *)
Definition UnixNano (t : Time) : Z :=
  wrap64 ((t / 1000000000 - unixToInternal) * 1000000000 + t mod 1000000000).

End time.

(** ** Package unicode/utf8 *)

Module utf8.

Definition RuneError : Z := 65533.

Definition between (lo hi : Z) (c : ascii) : bool :=
  (lo <=? byte_val c) && (byte_val c <=? hi).

Definition cont (c : ascii) : Z := Z.land (byte_val c) 63.

(** [DecodeRuneInString]: the first rune of [s] and its width in bytes;
    [(RuneError, 1)] when [s] does not start with a well-formed
    encoding, [(RuneError, 0)] when [s] is empty. *)
Definition DecodeRuneInString (s : string) : Z * nat :=
  match s with
  | EmptyString => (RuneError, 0%nat)
  | String c0 s1 =>
    let b0 := byte_val c0 in
    if b0 <? 128 then (b0, 1%nat)
    else if between 194 223 c0 then
      match s1 with
      | String c1 _ =>
        if between 128 191 c1
        then (Z.lor (Z.shiftl (Z.land b0 31) 6) (cont c1), 2%nat)
        else (RuneError, 1%nat)
      | _ => (RuneError, 1%nat)
      end
    else if between 224 239 c0 then
      let lo := if b0 =? 224 then 160 else 128 in
      let hi := if b0 =? 237 then 159 else 191 in
      match s1 with
      | String c1 (String c2 _) =>
        if between lo hi c1 && between 128 191 c2
        then (Z.lor (Z.shiftl (Z.land b0 15) 12)
                (Z.lor (Z.shiftl (cont c1) 6) (cont c2)), 3%nat)
        else (RuneError, 1%nat)
      | _ => (RuneError, 1%nat)
      end
    else if between 240 244 c0 then
      let lo := if b0 =? 240 then 144 else 128 in
      let hi := if b0 =? 244 then 143 else 191 in
      match s1 with
      | String c1 (String c2 (String c3 _)) =>
        if between lo hi c1 && between 128 191 c2 && between 128 191 c3
        then (Z.lor (Z.shiftl (Z.land b0 7) 18)
                (Z.lor (Z.shiftl (cont c1) 12)
                   (Z.lor (Z.shiftl (cont c2) 6) (cont c3))), 4%nat)
        else (RuneError, 1%nat)
      | _ => (RuneError, 1%nat)
      end
    else (RuneError, 1%nat)
  end.

(** Does the rune at the head of [s] fail to decode? *)
Definition invalid_head (s : string) : bool :=
  let '(r, size) := DecodeRuneInString s in
  (r =? RuneError) && (size =? 1)%nat.

(** U+FFFD as it is encoded in UTF-8. *)
Definition replacement : string :=
  String (byte_of 239) (String (byte_of 191) (String (byte_of 189) EmptyString)).

(** [ValidString]: [pending] counts the bytes of [s] that continue a
    rune whose head was already decoded. *)
Fixpoint valid_from (pending : nat) (s : string) : bool :=
  match s with
  | EmptyString => true
  | String _ s' =>
    match pending with
    | S p => valid_from p s'
    | O =>
      if invalid_head s then false
      else valid_from (snd (DecodeRuneInString s) - 1)%nat s'
    end
  end.

Definition ValidString (s : string) : bool := valid_from 0 s.

(** The text a string becomes when encoding/json writes it and reads it
    back: each byte that does not start a well-formed rune is replaced
    by U+FFFD, everything else is kept. *)
Fixpoint coerce_from (pending : nat) (s : string) : string :=
  match s with
  | EmptyString => EmptyString
  | String c s' =>
    match pending with
    | S p => String c (coerce_from p s')
    | O =>
      if invalid_head s then replacement ++ coerce_from 0 s'
      else String c (coerce_from (snd (DecodeRuneInString s) - 1)%nat s')
    end
  end.

Definition coerce (s : string) : string := coerce_from 0 s.

End utf8.

(** ** Values of type interface{}

    The dynamic values main.go stores in its [map[string]interface{}]
    records: strings and [int64] on the way to [json.Marshal], strings and
    [float64] on the way back from [json.Unmarshal].  A [float64] that
    holds a whole number is given by that number. *)

Inductive iface :=
| I_string (s : string)
| I_int64 (n : Z)
| I_float64 (f : Z).

Definition dquote : ascii := byte_of 34.
Definition backslash : ascii := byte_of 92.
Definition newline : ascii := byte_of 10.

Definition decimal (n : Z) : string := NilZero.string_of_int (Z.to_int n).

(** ** Package encoding/json

    A JSON text is kept as a tree: an object is the list of its members
    in the order they are written, a string member holds the Go string it
    was written from.  [Marshal] builds the tree of a Go map, [text]
    gives the bytes written for a tree, and [Unmarshal] gives the Go map
    read back from these bytes. *)

Module json.

Inductive scalar :=
| JString (s : string)
| JNumber (n : Z).

Definition object := list (string * scalar).

(** The [float64] nearest to the whole number [n], ties to even: what
    [Unmarshal] stores for the number literal [n]. *)
Definition float64_of_Z (n : Z) : Z :=
  let a := Z.abs n in
  let k := Z.log2 a + 1 - 53 in
  if k <=? 0 then n
  else
    let q := a / 2 ^ k in
    let r := a mod 2 ^ k in
    let half := 2 ^ (k - 1) in
    let q' := if (half <? r) || ((r =? half) && Z.odd q) then q + 1 else q in
    Z.sgn n * (q' * 2 ^ k).

Definition key_le (p q : string * iface) : Prop := String.leb p.1 q.1.

#[global] Instance key_le_dec : RelDecision key_le.
Proof. intros p q. unfold key_le. apply _. Defined.

Definition encode (v : iface) : scalar :=
  match v with
  | I_string s => JString s
  | I_int64 n => JNumber n
  | I_float64 f => JNumber f
  end.

(** [Marshal] of a [map[string]interface{}]: members sorted by key. *)
Definition Marshal (rec : gmap string iface) : object :=
  (fun p : string * iface => (p.1, encode p.2))
    <$> merge_sort key_le (map_to_list rec).

Definition decode (v : scalar) : iface :=
  match v with
  | JString s => I_string (utf8.coerce s)
  | JNumber n => I_float64 (float64_of_Z n)
  end.

(** [Unmarshal] into a [map[string]interface{}].  The bytes of a
    string that are not well-formed UTF-8 were written as the escape of
    U+FFFD, so they are read back as U+FFFD; a number is read as a
    [float64]; a later member overwrites an earlier one of the same
    name. *)
Definition Unmarshal (o : object) : gmap string iface :=
  foldl (fun m p => <[utf8.coerce p.1 := decode p.2]> m) ∅ o.

(** *** The bytes of a JSON text ([appendString] with escapeHTML) *)

Definition hex_digit (n : Z) : ascii :=
  default "0"%char (String.get (Z.to_nat n) "0123456789abcdef").

Definition htmlSafe (c : ascii) : bool :=
  let b := byte_val c in
  (32 <=? b) && (b <? 128)
  && negb ((b =? 34) || (b =? 38) || (b =? 60) || (b =? 62) || (b =? 92)).

Definition escape (c : ascii) : string :=
  let b := byte_val c in
  if (b =? 92) || (b =? 34) then String backslash (String c EmptyString)
  else if b =? 8 then "\b"
  else if b =? 12 then "\f"
  else if b =? 10 then "\n"
  else if b =? 13 then "\r"
  else if b =? 9 then "\t"
  else "\u00" ++ String (hex_digit (Z.shiftr b 4))
                   (String (hex_digit (Z.land b 15)) EmptyString).

(** [skip] counts the bytes of [s] that belong to a rune already
    written. *)
Fixpoint quote_from (skip : nat) (s : string) : string :=
  match s with
  | EmptyString => EmptyString
  | String c s' =>
    match skip with
    | S p => quote_from p s'
    | O =>
      if byte_val c <? 128 then
        (if htmlSafe c then String c EmptyString else escape c)
          ++ quote_from 0 s'
      else
        let '(r, size) := utf8.DecodeRuneInString s in
        if utf8.invalid_head s then "\ufffd" ++ quote_from 0 s'
        else if (r =? 8232) || (r =? 8233) then
          "\u202" ++ String (hex_digit (Z.land r 15)) (quote_from (size - 1) s')
        else substring 0 size s ++ quote_from (size - 1) s'
    end
  end.

Definition quote (s : string) : string :=
  String dquote (quote_from 0 s ++ String dquote EmptyString).

Definition scalar_text (v : scalar) : string :=
  match v with
  | JString s => quote s
  | JNumber n => decimal n
  end.

Definition member_text (p : string * scalar) : string :=
  quote p.1 ++ ":" ++ scalar_text p.2.

Fixpoint members_text (o : object) : string :=
  match o with
  | [] => EmptyString
  | [p] => member_text p
  | p :: o' => member_text p ++ "," ++ members_text o'
  end.

Definition text (o : object) : string := "{" ++ members_text o ++ "}".

End json.

(** ** Constants of main.go *)

Definition AOF_SYNC : bool := true.
Definition EXPIRY_TICK : time.Duration := 1 * time.Second.

(** ** The store *)

Record entry := mkEntry {
  Value : option string;
  ExpiresAt : time.Time            (* zero means no expiry *)
}.

(** A line of appendonly.aof: the JSON object written by [appendAOF], or
    any other text, which [json.Unmarshal] rejects. *)
Inductive aof_line :=
| JsonLine (o : json.object)
| JunkLine (t : string).

(** dump.rdb: an object of objects. *)
Definition snapshot_doc := list (string * json.object).

(** A Go [error]: [None] is nil, [Some msg] an error of text [msg]. *)
Definition error := option string.

(** The state: the map of [DB], the two files it writes, and the
    environment.  [io] holds the results the operating system gives to
    the coming calls of [Write], [Sync] and [WriteFile], in order; once it
    is exhausted every call succeeds.  A call that fails is taken to have
    written nothing. *)
Record DB := mkDB {
  data : gmap string entry;
  aof : list aof_line;
  snapshot : option snapshot_doc;
  io : list error
}.

Definition set_data (f : gmap string entry -> gmap string entry) (db : DB) : DB :=
  mkDB (f (data db)) (aof db) (snapshot db) (io db).
Definition set_aof (f : list aof_line -> list aof_line) (db : DB) : DB :=
  mkDB (data db) (f (aof db)) (snapshot db) (io db).
Definition set_snapshot (d : snapshot_doc) (db : DB) : DB :=
  mkDB (data db) (aof db) (Some d) (io db).

(** One call into the operating system. *)
Definition syscall (db : DB) : error * DB :=
  match io db with
  | [] => (None, db)
  | r :: rest => (r, mkDB (data db) (aof db) (snapshot db) rest)
  end.

(** [string(value)] on a byte slice. *)
Definition string_of_bytes (b : option string) : string := default EmptyString b.

(** [!e.ExpiresAt.IsZero() && now.After(e.ExpiresAt)], the test shared by
    [Get] and [expiryWorker]. *)
Definition expired (now : time.Time) (e : entry) : bool :=
  negb (time.IsZero (ExpiresAt e)) && time.After now (ExpiresAt e).

Definition appendAOF (cmd key : string) (value : option string)
    (ttl : time.Duration) (db : DB) : error * DB :=
  let rec := <["key" := I_string key]> (<["cmd" := I_string cmd]> (∅ : gmap string iface)) in
  let rec := match value with
             | Some v => <["value" := I_string v]> rec
             | None => rec
             end in
  let rec := if 0 <? ttl
             then <["ttl_ms" := I_int64 (Z.quot ttl time.Millisecond)]> rec
             else rec in
  let b := json.Marshal rec in
  let '(err, db) := syscall db in                     (* db.aof.Write *)
  match err with
  | Some e => (Some e, db)
  | None =>
    let db := set_aof (fun f => (f ++ [JsonLine b])%list) db in
    if AOF_SYNC then syscall db                       (* db.aof.Sync *)
    else (None, db)
  end.

(** [DB.Set] ([Set] is reserved in Rocq). *)
Definition DB_Set (key : string) (value : option string) (ttl : time.Duration)
    (now : time.Time) (db : DB) : error * DB :=
  let ent := mkEntry value time.zero in
  let ent := if 0 <? ttl then mkEntry (Value ent) (time.Add now ttl) else ent in
  let db := set_data <[key := ent]> db in
  appendAOF "SET" key value ttl db.

(** [Get] returns the state as well, as the other operations do, although
    its body only reads it. *)
Definition Get (key : string) (now : time.Time) (db : DB)
    : (option string * bool) * DB :=
  match data db !! key with
  | None => ((None, false), db)
  | Some e =>
    if expired now e then ((None, false), db)
    else ((Value e, true), db)
  end.

Fixpoint Del_loop (keys : list string) (deleted : Z) (db : DB) : Z * DB :=
  match keys with
  | [] => (deleted, db)
  | k :: keys' =>
    match data db !! k with
    | Some _ =>
      let db := set_data (delete k) db in
      let deleted := deleted + 1 in
      let '(_, db) := appendAOF "DEL" k None 0 db in   (* _ = db.appendAOF(...) *)
      Del_loop keys' deleted db
    | None => Del_loop keys' deleted db
    end
  end.

Definition Del (keys : list string) (db : DB) : Z * DB := Del_loop keys 0 db.

(** One tick of [expiryWorker]: the body of [for range t.C]. *)
Definition expiryTick (now : time.Time) (db : DB) : DB :=
  set_data (fun m =>
    map_fold (fun k e acc => if expired now e then delete k acc else acc) m m) db.

Definition SaveSnapshot (db : DB) : error * DB :=
  let tmp : gmap string (gmap string iface) :=
    (fun e => <["expiresAt" := I_int64 (time.UnixNano (ExpiresAt e))]>
                (<["value" := I_string (string_of_bytes (Value e))]> ∅))
      <$> data db in
  let b : snapshot_doc :=
    (fun p => (p.1, json.Marshal p.2))
      <$> merge_sort (fun p q => String.leb p.1 q.1) (map_to_list tmp) in
  let '(err, db) := syscall db in                     (* os.WriteFile *)
  match err with
  | Some e => (Some e, db)
  | None => (None, set_snapshot b db)
  end.

(** ** Library functions taken as parameters

    The functions of Go's library whose results depend on Unicode tables
    or on floating point.  The program is embedded over any such
    functions; [ascii_lib] below computes them for ASCII text. *)

Class GoLib := {
  strings_TrimSpace : string -> string;
  strings_Fields : string -> list string;
  strings_ToUpper : string -> string;
  (** [time.ParseDuration]: the duration, or the text of the error. *)
  time_ParseDuration : string -> time.Duration + string;
  (** [fmt.Sprintf("%v", f)] for a [float64] [f] holding a whole number. *)
  fmt_float64 : Z -> string
}.

Definition CRLF : string := String (byte_of 13) (String (byte_of 10) EmptyString).

(** [bufio.MaxScanTokenSize]: a line fits the buffer of a [bufio.Scanner]
    together with its newline. *)
Definition MaxScanTokenSize : Z := 64 * 1024.

Definition line_text (l : aof_line) : string :=
  match l with
  | JsonLine o => json.text o
  | JunkLine t => t
  end.

(** The lines [scanner.Scan()] delivers: it stops for good at the first
    line that does not fit its buffer. *)
Fixpoint Scan (lines : list aof_line) : list aof_line :=
  match lines with
  | [] => []
  | l :: rest =>
    if Z.of_nat (String.length (line_text l)) <? MaxScanTokenSize
    then l :: Scan rest
    else []
  end.

(** [int64(ms)] for a [float64] holding a whole number (out of range:
    the value amd64 gives). *)
Definition int64_of_float64 (f : Z) : Z :=
  if (- 2 ^ 63 <=? f) && (f <? 2 ^ 63) then f else - 2 ^ 63.

Section Program.

Context {lib : GoLib}.

(** [fmt.Sprintf("%v", rec[k])]; a missing key gives the nil interface. *)
Definition Sprintf_v (v : option iface) : string :=
  match v with
  | None => "<nil>"
  | Some (I_string s) => s
  | Some (I_int64 n) => decimal n
  | Some (I_float64 f) => fmt_float64 f
  end.

(** The body of the loop of [loadAOF], for one line. *)
Definition loadAOF_line (now : time.Time) (line : aof_line)
    (m : gmap string entry) : gmap string entry :=
  match line with
  | JunkLine _ => m                                  (* skip invalid line *)
  | JsonLine o =>
    let rec := json.Unmarshal o in
    let cmd := strings_ToUpper (Sprintf_v (rec !! "cmd")) in
    let key := Sprintf_v (rec !! "key") in
    if decide (cmd = "SET") then
      let val := Some (Sprintf_v (rec !! "value")) in
      let ttl : time.Duration :=
        match rec !! "ttl_ms" with
        | Some (I_float64 ms) =>
          if 0 <? ms then wrap64 (int64_of_float64 ms * time.Millisecond) else 0
        | _ => 0
        end in
      let m := <[key := mkEntry val time.zero]> m in
      if 0 <? ttl
      then alter (fun e => mkEntry (Value e) (time.Add now ttl)) key m
      else m
    else if decide (cmd = "DEL") then delete key m
    else m
  end.

(** [clock i] is the time read while line [i] of the file is replayed. *)
Fixpoint loadAOF_loop (clock : nat -> time.Time) (i : nat)
    (lines : list aof_line) (m : gmap string entry) : gmap string entry :=
  match lines with
  | [] => m
  | l :: rest => loadAOF_loop clock (S i) rest (loadAOF_line (clock i) l m)
  end.

Definition loadAOF (clock : nat -> time.Time) (db : DB) : error * DB :=
  let '(err, db) := syscall db in                   (* db.aof.Seek *)
  match err with
  | Some e => (Some e, db)
  | None => (None, set_data (loadAOF_loop clock 0 (Scan (aof db))) db)
  end.

(** [NewDB] on a machine whose files hold [file] and [dump]. *)
Definition NewDB (clock : nat -> time.Time) (file : list aof_line)
    (dump : option snapshot_doc) (os : list error) : option DB * error :=
  let '(err, db) := syscall (mkDB ∅ file dump os) in  (* os.OpenFile *)
  match err with
  | Some e => (None, Some e)
  | None =>
    match loadAOF clock db with
    | (Some e, _) => (None, Some e)
    | (None, db) => (Some db, None)
    end
  end.

Definition splitArgs (line : string) : list string := strings_Fields line.

(** The [switch] of [handleConn]: the texts written to the connection
    and the new state. *)
Definition dispatch (now : time.Time) (args : list string) (db : DB)
    : list string * DB :=
  let arg i := nth i args EmptyString in
  let cmd := strings_ToUpper (arg 0%nat) in
  if decide (cmd = "PING") then (["+PONG" ++ CRLF], db)
  else if decide (cmd = "SET") then
    if (length args <? 3)%nat
    then (["-ERR wrong number of args for SET" ++ CRLF], db)
    else
      let key := arg 1%nat in
      let val := Some (arg 2%nat) in
      let ttl : time.Duration :=
        if (5 <=? length args)%nat && bool_decide (strings_ToUpper (arg 3%nat) = "PX")
        then match time_ParseDuration (arg 4%nat ++ "ms") with
             | inl ms => ms
             | inr _ => 0
             end
        else 0 in
      match DB_Set key val ttl now db with
      | (Some err, db) => (["-ERR " ++ err ++ CRLF], db)
      | (None, db) => (["+OK" ++ CRLF], db)
      end
  else if decide (cmd = "GET") then
    if negb (length args =? 2)%nat
    then (["-ERR wrong number of args for GET" ++ CRLF], db)
    else
      match Get (arg 1%nat) now db with
      | ((v, true), db) =>
        (["$" ++ decimal (Z.of_nat (String.length (string_of_bytes v)))
            ++ CRLF ++ string_of_bytes v ++ CRLF], db)
      | ((_, false), db) => (["$-1" ++ CRLF], db)
      end
  else if decide (cmd = "DEL") then
    if (length args <? 2)%nat
    then (["-ERR wrong number of args for DEL" ++ CRLF], db)
    else
      let '(removed, db) := Del (tail args) db in
      ([":" ++ decimal removed ++ CRLF], db)
  else if decide (cmd = "SAVE") then
    match SaveSnapshot db with
    | (Some err, db) => (["-ERR " ++ err ++ CRLF], db)
    | (None, db) => (["+OK" ++ CRLF], db)
    end
  else (["-ERR unknown command" ++ CRLF], db).

(** One turn of the loop of [handleConn], for a line read at [now]. *)
Definition handleLine (now : time.Time) (line : string) (db : DB)
    : list string * DB :=
  let line := strings_TrimSpace line in
  if decide (line = EmptyString) then ([], db)
  else
    let args := splitArgs line in
    if (length args =? 0)%nat then (["-ERR empty command" ++ CRLF], db)
    else dispatch now args db.

(** [handleConn] on a connection that delivers the lines of [input],
    each with the time it is served at, and then fails to read (end of
    stream, timeout): the texts written before the connection closes. *)
Fixpoint handleConn (input : list (time.Time * string)) (db : DB)
    : list string * DB :=
  match input with
  | [] => ([], db)
  | (now, line) :: rest =>
    let '(out, db) := handleLine now line db in
    let '(outs, db) := handleConn rest db in
    ((out ++ outs)%list, db)
  end.

End Program.

(** ** The library functions on ASCII text

    [ascii_lib] agrees with Go's library on texts made of ASCII
    characters, and for [ParseDuration] on texts without a fraction (a
    text with a fraction is reported as an error here, although Go reads
    it).  It is the instance the examples are computed with. *)

Module ascii.

Definition isSpace (c : ascii) : bool :=
  let b := byte_val c in (b =? 32) || ((9 <=? b) && (b <=? 13)).

Definition isDigit (c : ascii) : bool :=
  let b := byte_val c in (48 <=? b) && (b <=? 57).

Definition upper (c : ascii) : ascii :=
  let b := byte_val c in
  if (97 <=? b) && (b <=? 122) then byte_of (b - 32) else c.

Fixpoint ToUpper (s : string) : string :=
  match s with
  | EmptyString => EmptyString
  | String c s' => String (upper c) (ToUpper s')
  end.

Fixpoint TrimLeft (s : string) : string :=
  match s with
  | String c s' => if isSpace c then TrimLeft s' else s
  | EmptyString => EmptyString
  end.

Fixpoint TrimRight (s : string) : string :=
  match s with
  | EmptyString => EmptyString
  | String c s' =>
    let t := TrimRight s' in
    if isSpace c && bool_decide (t = EmptyString) then EmptyString else String c t
  end.

Definition TrimSpace (s : string) : string := TrimRight (TrimLeft s).

(** [cur] is the field being read, in reverse. *)
Fixpoint Fields_from (cur : string) (s : string) : list string :=
  match s with
  | EmptyString => if bool_decide (cur = EmptyString) then [] else [cur]
  | String c s' =>
    if isSpace c then
      if bool_decide (cur = EmptyString) then Fields_from EmptyString s'
      else cur :: Fields_from EmptyString s'
    else Fields_from (cur ++ String c EmptyString) s'
  end.

Definition Fields (s : string) : list string := Fields_from EmptyString s.

Definition unitMap (u : string) : option Z :=
  if bool_decide (u = "ns") then Some 1
  else if bool_decide (u = "us") then Some 1000
  else if bool_decide (u = "ms") then Some 1000000
  else if bool_decide (u = "s") then Some 1000000000
  else if bool_decide (u = "m") then Some 60000000000
  else if bool_decide (u = "h") then Some 3600000000000
  else None.

(** [leadingInt]: the leading digits of [s] as a number, and the rest;
    [None] on overflow. *)
Fixpoint leadingInt (x : Z) (s : string) : option (Z * string) :=
  match s with
  | String c s' =>
    if isDigit c then
      if 2 ^ 63 / 10 <? x then None
      else
        let x := x * 10 + (byte_val c - 48) in
        if 2 ^ 63 <? x then None else leadingInt x s'
    else Some (x, s)
  | EmptyString => Some (x, EmptyString)
  end.

Definition startsNumber (c : ascii) : bool := isDigit c || (byte_val c =? 46).

(** The unit: the characters up to the next digit or period. *)
Fixpoint spanUnit (s : string) : string * string :=
  match s with
  | EmptyString => (EmptyString, EmptyString)
  | String c s' =>
    if startsNumber c then (EmptyString, s)
    else let '(u, r) := spanUnit s' in (String c u, r)
  end.

(** The loop of [ParseDuration] over the groups "number unit"; [d] is
    the sum so far. *)
Fixpoint groups (fuel : nat) (d : Z) (s : string) : option Z :=
  match fuel, s with
  | _, EmptyString => Some d
  | O, _ => None
  | S fuel, String c _ =>
    if negb (startsNumber c) then None
    else
      match leadingInt 0 s with
      | None => None
      | Some (v, s1) =>
        if (String.length s1 =? String.length s)%nat then None
        else
          let '(u, s2) := spanUnit s1 in
          match unitMap u with
          | None => None
          | Some unit =>
            if 2 ^ 63 / unit <? v then None
            else
              let d := d + v * unit in
              if 2 ^ 63 <? d then None else groups fuel d s2
          end
      end
  end.

(** The error of [ParseDuration]; main.go does not look at its text. *)
Definition invalid (s : string) : time.Duration + string :=
  inr ("time: invalid duration " ++ String dquote (s ++ String dquote EmptyString)).

Definition ParseDuration (orig : string) : time.Duration + string :=
  let '(neg, s) :=
    match orig with
    | String c s' =>
      if (byte_val c =? 45) || (byte_val c =? 43)
      then (byte_val c =? 45, s') else (false, orig)
    | EmptyString => (false, orig)
    end in
  if bool_decide (s = "0") then inl 0
  else if bool_decide (s = EmptyString) then invalid orig
  else
    match groups (String.length s) 0 s with
    | None => invalid orig
    | Some d =>
      if neg then inl (wrap64 (- d))
      else if 2 ^ 63 - 1 <? d then invalid orig
      else inl d
    end.

(** [%v] of a whole [float64]: plain digits below 1e6, otherwise a
    mantissa and an exponent of at least two digits. *)
Fixpoint stripZeros (s : string) : string :=
  match s with
  | EmptyString => EmptyString
  | String c s' =>
    let t := stripZeros s' in
    if bool_decide (c = "0"%char) && bool_decide (t = EmptyString)
    then EmptyString else String c t
  end.

Definition float64 (f : Z) : string :=
  let digits := decimal (Z.abs f) in
  let sign := if f <? 0 then "-" else EmptyString in
  if Z.abs f <? 1000000 then sign ++ digits
  else
    let e := Z.of_nat (String.length digits) - 1 in
    let frac := stripZeros (substring 1 (String.length digits - 1) digits) in
    sign ++ substring 0 1 digits
      ++ (if bool_decide (frac = EmptyString) then EmptyString else "." ++ frac)
      ++ "e+" ++ (if e <? 10 then "0" else EmptyString) ++ decimal e.

End ascii.

Definition ascii_lib : GoLib := {|
  strings_TrimSpace := ascii.TrimSpace;
  strings_Fields := ascii.Fields;
  strings_ToUpper := ascii.ToUpper;
  time_ParseDuration := ascii.ParseDuration;
  fmt_float64 := ascii.float64
|}.

(** ** Auxiliary definitions of the properties *)

(** The entry [Set] stores. *)
Definition entry_of (value : option string) (ttl : time.Duration)
    (now : time.Time) : entry :=
  mkEntry value (if 0 <? ttl then time.Add now ttl else time.zero).

(** The empty store on a machine without files, where no call fails. *)
Definition empty_db : DB := mkDB ∅ [] None [].

(** The record [appendAOF] marshals. *)
Definition aof_record (cmd key : string) (value : option string)
    (ttl : time.Duration) : gmap string iface :=
  let rec := <["key" := I_string key]> (<["cmd" := I_string cmd]> (∅ : gmap string iface)) in
  let rec := match value with
             | Some v => <["value" := I_string v]> rec
             | None => rec
             end in
  if 0 <? ttl
  then <["ttl_ms" := I_int64 (Z.quot ttl time.Millisecond)]> rec
  else rec.

(** The keys a [Del] of [keys] removes from the map [m], in order: the
    keys it finds present when their turn comes. *)
Fixpoint removed (keys : list string) (m : gmap string entry) : list string :=
  match keys with
  | [] => []
  | k :: keys' =>
    match m !! k with
    | Some _ => k :: removed keys' (delete k m)
    | None => removed keys' m
    end
  end.

(** The line of the log for the removal of [k]. *)
Definition del_line (k : string) : aof_line :=
  JsonLine [("cmd", json.JString "DEL"); ("key", json.JString k)].

(** The commands [handleConn] knows, as [switch] compares them. *)
Definition known_command (c : string) : Prop :=
  c ∈ ["PING"; "SET"; "GET"; "DEL"; "SAVE"].

(** The ttl the SET branch of [handleConn] computes from its arguments. *)
Definition px_ttl {lib : GoLib} (args : list string) : time.Duration :=
  if (5 <=? length args)%nat
     && bool_decide (strings_ToUpper (nth 3 args EmptyString) = "PX")
  then match time_ParseDuration (nth 4 args EmptyString ++ "ms") with
       | inl ms => ms
       | inr _ => 0
       end
  else 0.

(** A store that holds [k], on a machine whose next write fails. *)
Definition failing_db : DB :=
  mkDB {["k" := mkEntry (Some "v") time.zero]} [] None
       [Some "write appendonly.aof: no space left on device"].

(** A line as [ReadString] delivers it: the text and its newline. *)
Definition wire (s : string) : string := s ++ String newline EmptyString.

(** *** Operations and restart (C2) *)

(** A mutating operation: [Set], with the time it runs at, or [Del]. *)
Inductive op :=
| OpSet (key : string) (value : option string) (ttl : time.Duration) (now : time.Time)
| OpDel (keys : list string).

Definition apply_op (o : op) (db : DB) : DB :=
  match o with
  | OpSet key value ttl now => (DB_Set key value ttl now db).2
  | OpDel keys => (Del keys db).2
  end.

(** Direct application of a sequence of operations. *)
Definition apply_ops (ops : list op) (db : DB) : DB :=
  foldl (fun db o => apply_op o db) db ops.

(** The store a restarted process rebuilds from the log [db] has
    written: [loadAOF] into the empty map. *)
Definition restart {lib : GoLib} (clock : nat -> time.Time) (db : DB) : DB :=
  (loadAOF clock (mkDB ∅ (aof db) (snapshot db) [])).2.

(** The operations whose text survives the log: keys and values are
    well-formed UTF-8, the value of a SET is not the nil slice, the ttl
    is an [int64]. *)
Definition textual (o : op) : Prop :=
  match o with
  | OpSet key value ttl _ =>
    utf8.ValidString key = true
    /\ (exists v, value = Some v /\ utf8.ValidString v = true)
    /\ ttl < 2 ^ 63
  | OpDel keys => Forall (fun k => utf8.ValidString k = true) keys
  end.

(** A line the scanner of [loadAOF] can deliver. *)
Definition fits (l : aof_line) : Prop :=
  Z.of_nat (String.length (line_text l)) < MaxScanTokenSize.

(** The expiry a replayed SET of [ttl] gets at replay time [now]: the
    ttl comes back in whole milliseconds. *)
Definition replayed_expiry (ttl : time.Duration) (now : time.Time) : time.Time :=
  let ms := Z.quot ttl time.Millisecond in
  if 0 <? ms then time.Add now (ms * time.Millisecond) else time.zero.

(** What the store knows of the SET that last wrote a key: the value and
    the ttl it was called with, the time it ran at, and the number of
    the line it wrote to the log (lines are counted from 0). *)
Record set_info := mkInfo {
  set_value : option string;
  set_ttl : time.Duration;
  set_time : time.Time;
  set_line : nat
}.

(** The keys of [keys] that a DEL finds in a map, as [removed] has them,
    for a map of any content. *)
Fixpoint removed_from {A} (keys : list string) (m : gmap string A) : list string :=
  match keys with
  | [] => []
  | k :: keys' =>
    match m !! k with
    | Some _ => k :: removed_from keys' (delete k m)
    | None => removed_from keys' m
    end
  end.

(** The SETs in force after the operations [ops], when [h] are those in
    force before and the log has [i] lines: a SET takes the place of any
    earlier SET of its key and writes line [i]; a DEL ends the SETs of
    the keys it lists and writes one line for each key it removes. *)
Fixpoint sets_in_force (i : nat) (ops : list op) (h : gmap string set_info)
    : gmap string set_info :=
  match ops with
  | [] => h
  | OpSet key value ttl now :: rest =>
    sets_in_force (S i) rest (<[key := mkInfo value ttl now i]> h)
  | OpDel keys :: rest =>
    sets_in_force (i + length (removed_from keys h)) rest
      (foldl (fun h k => delete k h) h keys)
  end.

(** The entry of a SET in the store it was applied to: it expires at the
    time of the SET plus the ttl, and never for a ttl that is not
    positive. *)
Definition direct_entry (s : set_info) : entry :=
  mkEntry (set_value s)
    (if 0 <? set_ttl s then time.Add (set_time s) (set_ttl s) else time.zero).

(** The entry of the same SET in the replayed store: it expires at the
    time the clock shows when the line of the SET is replayed, plus the
    ttl in whole milliseconds, and never for a ttl below one
    millisecond. *)
Definition replayed_entry (clock : nat -> time.Time) (s : set_info) : entry :=
  mkEntry (set_value s) (replayed_expiry (set_ttl s) (clock (set_line s))).

(** The line of the log of a SET in force. *)
Definition set_line_of (k : string) (s : set_info) : aof_line :=
  JsonLine (json.Marshal (aof_record "SET" k (set_value s) (set_ttl s))).

(** The store [db] and the replay of its log are both made of the SETs
    [h], each of which has its line in the log. *)
Definition in_force {lib : GoLib} (clock : nat -> time.Time) (db : DB)
    (h : gmap string set_info) : Prop :=
  data db = direct_entry <$> h
  /\ loadAOF_loop clock 0 (aof db) ∅ = replayed_entry clock <$> h
  /\ forall k s, h !! k = Some s -> aof db !! set_line s = Some (set_line_of k s).

(** The one byte 0xFF, which is not UTF-8. *)
Definition byte_ff : string := String (byte_of 255) EmptyString.

(** Three operations: a SET with a ttl of 1.5 ms, a SET without ttl, and
    a DEL of a present and of an absent key. *)
Definition sample_ops : list op :=
  [OpSet "foo" (Some "bar") 1500000 1000; OpSet "a" (Some "b") 0 2000;
   OpDel ["a"; "zz"]].

(** The empty store on a machine whose disk takes the write and the
    flush of one record and then is full. *)
Definition filling_db : DB :=
  mkDB ∅ [] None
       [None; None; Some "write appendonly.aof: no space left on device"].

(** [expiryWorker] over the ticks its ticker delivers, each with the
    time read at the tick: the loop [for range t.C]. *)
Definition expiryWorker (ticks : list time.Time) (db : DB) : DB :=
  foldl (fun db now => expiryTick now db) db ticks.

(** A reply line: a text that ends with CR LF. *)
Definition terminated (r : string) : Prop := exists body, r = body ++ CRLF.

(** The members of the record of the log for a command, as they are
    written: ttl_ms only for a positive ttl, value only for a slice that
    is not nil. *)
Definition record_members (cmd key : string) (value : option string)
    (ttl : time.Duration) : json.object :=
  ([("cmd", json.JString cmd); ("key", json.JString key)]
   ++ (if 0 <? ttl
       then [("ttl_ms", json.JNumber (Z.quot ttl time.Millisecond))] else [])
   ++ match value with
      | Some v => [("value", json.JString v)]
      | None => []
      end)%list.

(** A text of 65536 bytes. *)
Definition long_text : string :=
  Pos.iter (String "a"%char) EmptyString 65536.

(** The line of the log for a SET of a text of 65536 bytes. *)
Definition long_line : aof_line :=
  JsonLine (json.Marshal (aof_record "SET" "big" (Some long_text) 0)).

(** The line of the log for [SET foo bar]. *)
Definition foo_line : aof_line :=
  JsonLine (json.Marshal (aof_record "SET" "foo" (Some "bar") 0)).

(** The lines a [Del] gets into the log for the keys [ks] it removes,
    when [io] are the results of the coming calls of [Write] and [Sync]:
    each removal is written on its own.  A removal whose write fails
    leaves no line; one whose write succeeds has its line, whatever its
    flush returns; the removals that follow are written all the same. *)
Fixpoint logged_removals (ks : list string) (io : list error) : list aof_line :=
  match ks with
  | [] => []
  | k :: ks' =>
    match io with
    | [] => del_line k :: logged_removals ks' []
    | Some _ :: io' => logged_removals ks' io'
    | None :: io' => del_line k :: logged_removals ks' (tail io')
    end
  end.

(** A store that holds [a] and [b], on a machine whose next write
    fails. *)
Definition two_keys_db : DB :=
  mkDB (<["a" := mkEntry (Some "1") time.zero]> {["b" := mkEntry (Some "2") time.zero]})
       [] None [Some "write appendonly.aof: no space left on device"].

(** * Properties *)

(** ** Evaluations *)

Example utf8_coerce_ff :
  utf8.coerce (String (byte_of 255) "a") = utf8.replacement ++ "a".
Proof. reflexivity. Qed.

Example utf8_valid_euro :
  utf8.ValidString (String (byte_of 226) (String (byte_of 130) (String (byte_of 172) "!"))) = true.
Proof. reflexivity. Qed.

Example zero_time_unixnano : time.UnixNano time.zero = -6795364578871345152.
Proof. reflexivity. Qed.

(** Scenario A: SET then GET. *)
Example scenario_A :
  (@handleConn ascii_lib [(1000, wire "SET foo bar"); (2000, wire "GET foo")] empty_db).1
  = ["+OK" ++ CRLF; "$3" ++ CRLF ++ "bar" ++ CRLF].
Proof. vm_compute. reflexivity. Qed.

(** Scenario B: a ttl of 100 ms, read 200 ms later. *)
Example scenario_B :
  (@handleConn ascii_lib
     [(1000, wire "SET foo bar PX 100"); (1000 + 200 * time.Millisecond, wire "GET foo")]
     empty_db).1
  = ["+OK" ++ CRLF; "$-1" ++ CRLF].
Proof. vm_compute. reflexivity. Qed.

(** Scenario C: DEL of a key listed twice, then again. *)
Example scenario_C :
  (@handleConn ascii_lib
     [(1000, wire "SET foo bar"); (2000, wire "DEL foo foo"); (3000, wire "DEL foo")]
     empty_db).1
  = ["+OK" ++ CRLF; ":1" ++ CRLF; ":0" ++ CRLF].
Proof. vm_compute. reflexivity. Qed.

(** Scenario D: a restart after SET k v. *)
Example scenario_D :
  let db := (@handleConn ascii_lib [(1000, wire "SET k v")] empty_db).2 in
  (@handleConn ascii_lib [(9000, wire "GET k")]
     (restart (lib := ascii_lib) (fun _ => 8000) db)).1
  = ["$1" ++ CRLF ++ "v" ++ CRLF].
Proof. vm_compute. reflexivity. Qed.

(** The line of the log for [SET foo bar PX 100], without its quotes. *)
Example log_line_length :
  String.length
    (line_text (JsonLine (json.Marshal (aof_record "SET" "foo" (Some "bar")
                                          (100 * time.Millisecond)))))
  = String.length "{'cmd':'SET','key':'foo','ttl_ms':100,'value':'bar'}".
Proof. vm_compute. reflexivity. Qed.

(** ** The operating system and the append-only file *)

Lemma syscall_data db : data (syscall db).2 = data db.
Proof. unfold syscall. destruct (io db); reflexivity. Qed.

Lemma syscall_aof db : aof (syscall db).2 = aof db.
Proof. unfold syscall. destruct (io db); reflexivity. Qed.

Lemma syscall_snapshot db : snapshot (syscall db).2 = snapshot db.
Proof. unfold syscall. destruct (io db); reflexivity. Qed.

Lemma syscall_quiet db : io db = [] -> syscall db = (None, db).
Proof. unfold syscall. intros ->. reflexivity. Qed.

Lemma syscall_fails db e rest :
  io db = Some e :: rest -> (syscall db).1 = Some e.
Proof. unfold syscall. intros ->. reflexivity. Qed.

Lemma appendAOF_data cmd key value ttl db :
  data (appendAOF cmd key value ttl db).2 = data db.
Proof.
  unfold appendAOF.
  destruct (syscall db) as [err db1] eqn:E1.
  assert (data db1 = data db) as D1 by (rewrite <- (syscall_data db), E1; reflexivity).
  destruct err as [e|]; [exact D1|].
  simpl. rewrite syscall_data. exact D1.
Qed.

Lemma appendAOF_snapshot cmd key value ttl db :
  snapshot (appendAOF cmd key value ttl db).2 = snapshot db.
Proof.
  unfold appendAOF.
  destruct (syscall db) as [err db1] eqn:E1.
  assert (snapshot db1 = snapshot db) as D1
    by (rewrite <- (syscall_snapshot db), E1; reflexivity).
  destruct err as [e|]; [exact D1|].
  simpl. rewrite syscall_snapshot. exact D1.
Qed.

(** ** C5: Set mutates before it appends, and does not roll back *)

Lemma DB_Set_unfold key value ttl now db :
  DB_Set key value ttl now db
  = appendAOF "SET" key value ttl
      (set_data <[key := entry_of value ttl now]> db).
Proof. unfold DB_Set, entry_of. destruct (0 <? ttl); reflexivity. Qed.

Lemma DB_Set_data key value ttl now db :
  data (DB_Set key value ttl now db).2
  = <[key := entry_of value ttl now]> (data db).
Proof. rewrite DB_Set_unfold, appendAOF_data. reflexivity. Qed.

Lemma appendAOF_write_fails cmd key value ttl db e rest :
  io db = Some e :: rest -> (appendAOF cmd key value ttl db).1 = Some e.
Proof. unfold appendAOF, syscall. intros ->. reflexivity. Qed.

Lemma appendAOF_sync_fails cmd key value ttl db e rest :
  io db = None :: Some e :: rest -> (appendAOF cmd key value ttl db).1 = Some e.
Proof. unfold appendAOF, syscall. intros ->. reflexivity. Qed.

(** C5.  For every key, value and ttl, [Set] inserts or overwrites the
    entry, with [expiresAt = now + ttl] when [ttl > 0] and no expiry
    otherwise, before it attempts the log append: its result is that of
    the append on the mutated store.  Whether the append succeeds or not
    the store holds the new entry afterwards, and when the write or the
    flush of the append fails [Set] returns that error. *)
Theorem Set_keeps_mutation_when_append_fails
    (key : string) (value : option string) (ttl : time.Duration)
    (now : time.Time) (db : DB) :
  let ent := mkEntry value (if 0 <? ttl then time.Add now ttl else time.zero) in
  let r := DB_Set key value ttl now db in
  r = appendAOF "SET" key value ttl (set_data <[key := ent]> db)
  /\ data r.2 = <[key := ent]> (data db)
  /\ data r.2 !! key = Some ent
  /\ (forall e rest, io db = Some e :: rest -> r.1 = Some e)
  /\ (forall e rest, io db = None :: Some e :: rest -> r.1 = Some e).
Proof.
  intros ent r. subst r. fold (entry_of value ttl now) in ent. subst ent.
  split; [apply DB_Set_unfold|].
  split; [apply DB_Set_data|].
  split; [rewrite DB_Set_data; apply lookup_insert_eq|].
  split; intros e rest Hio; rewrite DB_Set_unfold.
  - eapply appendAOF_write_fails. exact Hio.
  - eapply appendAOF_sync_fails. exact Hio.
Qed.

(** ** C1: expiry on read *)

Lemma Get_found key now db e :
  data db !! key = Some e -> expired now e = false ->
  Get key now db = ((Value e, true), db).
Proof. unfold Get. intros -> ->. reflexivity. Qed.

Lemma Get_expired key now db e :
  data db !! key = Some e -> expired now e = true ->
  Get key now db = ((None, false), db).
Proof. unfold Get. intros -> ->. reflexivity. Qed.

Lemma expired_spec now e :
  expired now e = true <-> ExpiresAt e <> time.zero /\ ExpiresAt e < now.
Proof.
  unfold expired, time.IsZero, time.After, time.zero.
  rewrite andb_true_iff, negb_true_iff, Z.eqb_neq, Z.ltb_lt. reflexivity.
Qed.

(** C1, as stated, fails at the instant of expiry: an entry set at
    [t0 = 1000] with [ttl = 5] is still returned by a [Get] at
    [t0 + ttl = 1005]. *)
Lemma Get_at_expiry_instant_still_found :
  1000 + 5 <= 1005
  /\ (Get "k" 1005 (DB_Set "k" (Some "v") 5 1000 empty_db).2).1 = (Some "v", true).
Proof. split; [lia | reflexivity]. Qed.

(** C1, amended.  For every entry set with a ttl [T > 0] at time [t0]
    (a reading of the clock, which is not before the zero Time), [Get]
    returns not-found for any call at a time later than [t0 + T], whether
    or not the reaper has removed the entry, and still returns the value
    at [t0 + T] itself.  In any store a read never returns an entry whose
    [expiresAt] is set and earlier than the time of the read. *)
Theorem Get_after_expiry_not_found
    (key : string) (value : option string) (T : time.Duration)
    (t0 now : time.Time) (db : DB) :
  0 < T -> 0 <= t0 -> t0 + T < now ->
  (Get key now (DB_Set key value T t0 db).2).1 = (None, false)
  /\ (Get key (t0 + T) (DB_Set key value T t0 db).2).1 = (value, true)
  /\ (forall db' k e,
        data db' !! k = Some e ->
        ExpiresAt e <> time.zero -> ExpiresAt e < now ->
        (Get k now db').1 = (None, false))
  /\ (forall db' k v,
        (Get k now db').1 = (v, true) ->
        exists e, data db' !! k = Some e /\ Value e = v
                  /\ (ExpiresAt e = time.zero \/ now <= ExpiresAt e)).
Proof.
  intros HT Ht0 Hnow.
  assert (data (DB_Set key value T t0 db).2 !! key
          = Some (mkEntry value (t0 + T))) as Hent.
  { rewrite DB_Set_data, lookup_insert_eq. unfold entry_of, time.Add.
    destruct (Z.ltb_spec 0 T); [reflexivity | lia]. }
  split; [|split; [|split]].
  - rewrite (Get_expired _ _ _ _ Hent); [reflexivity|].
    apply expired_spec. unfold time.zero. simpl. lia.
  - rewrite (Get_found _ _ _ _ Hent); [reflexivity|].
    apply not_true_is_false. rewrite expired_spec. simpl. lia.
  - intros db' k e He Hnz Hlt.
    rewrite (Get_expired _ _ _ _ He); [reflexivity|].
    apply expired_spec. split; assumption.
  - intros db' k v. unfold Get.
    destruct (data db' !! k) as [e|] eqn:He; [|discriminate].
    destruct (expired now e) eqn:Hex; [discriminate|].
    simpl. intros [= <-]. exists e. split; [reflexivity|]. split; [reflexivity|].
    apply not_true_iff_false in Hex. rewrite expired_spec in Hex.
    destruct (Z.eq_dec (ExpiresAt e) time.zero); [left; assumption|].
    right. apply Z.le_ngt. intros Hlt. apply Hex. split; assumption.
Qed.

Lemma Get_after_expiry_not_found_witness :
  0 < 5 /\ 0 <= 1000 /\ 1000 + 5 < 1006
  /\ (Get "k" 1006 (DB_Set "k" (Some "v") 5 1000 empty_db).2).1 = (None, false).
Proof.
  split; [lia|]. split; [lia|]. split; [lia|].
  apply (Get_after_expiry_not_found "k" (Some "v") 5 1000 1006 empty_db); lia.
Defined.

(** ** C10: Get only reads *)

Lemma SaveSnapshot_data db : data (SaveSnapshot db).2 = data db.
Proof.
  unfold SaveSnapshot.
  destruct (syscall db) as [err db1] eqn:E1.
  assert (data db1 = data db) as D1 by (rewrite <- (syscall_data db), E1; reflexivity).
  destruct err; exact D1.
Qed.

(** C10.  [Get] never mutates the store: for every key and every time of
    the call, on an expired entry as on any other, the state after [Get]
    is the state before it, so an expired entry stays in the map.  The
    two other operations that are neither [Del] nor the reaper remove no
    key either: [SaveSnapshot] leaves the map as it is and [Set] keeps
    every key of the map. *)
Theorem Get_leaves_store_unchanged
    (key : string) (now : time.Time) (db : DB) :
  (Get key now db).2 = db
  /\ data (SaveSnapshot db).2 = data db
  /\ (forall k v ttl, dom (data db) ⊆ dom (data (DB_Set k v ttl now db).2)).
Proof.
  split; [|split].
  - unfold Get. destruct (data db !! key) as [e|]; [|reflexivity].
    destruct (expired now e); reflexivity.
  - apply SaveSnapshot_data.
  - intros k v ttl. rewrite DB_Set_data, dom_insert_L. set_solver.
Qed.

(** ** C9: one tick of the reaper *)

Lemma expiry_fold_lookup now (acc0 m : gmap string entry) (k : string) :
  map_fold (fun k e acc => if expired now e then delete k acc else acc) acc0 m !! k
  = match m !! k with
    | Some e => if expired now e then None else acc0 !! k
    | None => acc0 !! k
    end.
Proof.
  revert k.
  apply (map_fold_weak_ind
           (fun r m => forall k, r !! k = match m !! k with
                                         | Some e => if expired now e then None else acc0 !! k
                                         | None => acc0 !! k
                                         end)).
  - intros k. rewrite lookup_empty. reflexivity.
  - intros i x m' r Hi IH k.
    destruct (decide (i = k)) as [->|Hne].
    + rewrite lookup_insert_eq. specialize (IH k). rewrite Hi in IH.
      destruct (expired now x); [apply lookup_delete_eq | exact IH].
    + rewrite lookup_insert_ne by exact Hne. rewrite <- IH.
      destruct (expired now x); [apply lookup_delete_ne; exact Hne | reflexivity].
Qed.

(** C9.  A reaper tick removes from the store exactly the entries whose
    [expiresAt] is set and earlier than the time of the scan: after the
    tick a key is absent when it was absent or held such an entry, and
    every other entry is there as it was (same key, same value, same
    [expiresAt]).  The tick touches neither file. *)
Theorem expiryTick_removes_exactly_expired
    (now : time.Time) (db : DB) (k : string) :
  data (expiryTick now db) !! k
  = match data db !! k with
    | Some e =>
      if negb (time.IsZero (ExpiresAt e)) && time.After now (ExpiresAt e)
      then None else Some e
    | None => None
    end
  /\ aof (expiryTick now db) = aof db
  /\ snapshot (expiryTick now db) = snapshot db
  /\ io (expiryTick now db) = io db.
Proof.
  split; [|repeat split].
  unfold expiryTick. simpl. rewrite expiry_fold_lookup.
  destruct (data db !! k) as [e|]; [|reflexivity].
  change (negb (time.IsZero (ExpiresAt e)) && time.After now (ExpiresAt e))
    with (expired now e).
  destruct (expired now e); reflexivity.
Qed.

(** ** C6: Del is idempotent *)

Lemma Del_loop_absent keys n db :
  Forall (fun k => data db !! k = None) keys -> Del_loop keys n db = (n, db).
Proof.
  induction 1 as [|k keys Hk _ IH]; simpl; [reflexivity|].
  rewrite Hk. exact IH.
Qed.

Lemma Del_loop_present k keys n db e :
  data db !! k = Some e ->
  Del_loop (k :: keys) n db
  = Del_loop keys (n + 1) (appendAOF "DEL" k None 0 (set_data (delete k) db)).2.
Proof.
  intros Hk. simpl. rewrite Hk.
  destruct (appendAOF "DEL" k None 0 (set_data (delete k) db)); reflexivity.
Qed.

Lemma Del_one_gone k db : data (Del [k] db).2 !! k = None.
Proof.
  unfold Del. destruct (data db !! k) as [e|] eqn:Hk.
  - rewrite (Del_loop_present _ _ _ _ _ Hk). simpl.
    rewrite appendAOF_data. simpl. apply lookup_delete_eq.
  - simpl. rewrite Hk. exact Hk.
Qed.

(** C6.  [Del] on absent keys returns 0 and leaves the whole state as it
    is; once a [Del] of a key has run, every further [Del] of that key
    returns 0 however often it is repeated; and one [Del] that lists a
    present key twice returns 1. *)
Theorem Del_idempotent (k : string) (keys : list string) (db : DB) :
  (Forall (fun k => data db !! k = None) keys -> Del keys db = (0, db))
  /\ (data db !! k = None -> Del [k] db = (0, db))
  /\ (forall n : nat,
        let db1 := (Del [k] db).2 in
        Del [k] (Nat.iter n (fun d => (Del [k] d).2) db1) = (0, db1))
  /\ (is_Some (data db !! k) ->
        (Del [k] db).1 = 1 /\ (Del [k; k] db).1 = 1).
Proof.
  split; [|split; [|split]].
  - intros H. apply Del_loop_absent. exact H.
  - intros H. apply Del_loop_absent. constructor; [exact H | constructor].
  - intros n db1.
    assert (Del [k] db1 = (0, db1)) as Hfix.
    { apply Del_loop_absent. constructor; [apply Del_one_gone | constructor]. }
    assert (Nat.iter n (fun d => (Del [k] d).2) db1 = db1) as ->; [|exact Hfix].
    induction n as [|n IH]; simpl; [reflexivity|]. rewrite IH, Hfix. reflexivity.
  - intros [e He]. unfold Del.
    rewrite !(Del_loop_present _ _ _ _ _ He).
    set (db1 := (appendAOF "DEL" k None 0 (set_data (delete k) db)).2).
    assert (data db1 !! k = None) as Hgone.
    { subst db1. rewrite appendAOF_data. simpl. apply lookup_delete_eq. }
    split; [reflexivity|]. simpl. rewrite Hgone. reflexivity.
Qed.

Lemma Del_idempotent_witness :
  data empty_db !! "foo" = None
  /\ Del ["foo"] empty_db = (0, empty_db)
  /\ is_Some (data (DB_Set "foo" (Some "bar") 0 0 empty_db).2 !! "foo")
  /\ (Del ["foo"; "foo"] (DB_Set "foo" (Some "bar") 0 0 empty_db).2).1 = 1.
Proof.
  split; [reflexivity|].
  split; [apply (Del_idempotent "foo" [] empty_db); reflexivity|].
  assert (is_Some (data (DB_Set "foo" (Some "bar") 0 0 empty_db).2 !! "foo")) as H
    by (eexists; reflexivity).
  split; [exact H|].
  apply (Del_idempotent "foo" [] (DB_Set "foo" (Some "bar") 0 0 empty_db).2). exact H.
Defined.

(** ** C3: the snapshot *)

Lemma Marshal_snapshot_entry (z : Z) (s : string) :
  json.Marshal (<["expiresAt" := I_int64 z]> (<["value" := I_string s]> ∅))
  = [("expiresAt", json.JNumber z); ("value", json.JString s)].
Proof. reflexivity. Qed.

(** What [SaveSnapshot] writes when the write succeeds: the file is
    replaced by one object that has, for every key of the store and for
    nothing else, a member holding the value and [UnixNano] of the
    expiry. *)
Lemma SaveSnapshot_members db :
  io db = [] ->
  exists doc,
    SaveSnapshot db = (None, set_snapshot doc db)
    /\ forall k o,
         (k, o) ∈ doc <->
         exists e, data db !! k = Some e
           /\ o = [("expiresAt", json.JNumber (time.UnixNano (ExpiresAt e)));
                   ("value", json.JString (string_of_bytes (Value e)))].
Proof.
  intros Hio. unfold SaveSnapshot. rewrite (syscall_quiet _ Hio).
  eexists. split; [reflexivity|].
  intros k o. rewrite list_elem_of_fmap. split.
  - intros [[k' m] [[= -> ->] Hin]].
    rewrite merge_sort_Permutation in Hin.
    apply elem_of_map_to_list in Hin. rewrite lookup_fmap in Hin.
    destruct (data db !! k') as [e|]; [|discriminate].
    injection Hin as <-. exists e. split; [reflexivity|].
    apply Marshal_snapshot_entry.
  - intros [e [He ->]].
    eexists (k, _). split; [simpl; rewrite Marshal_snapshot_entry; reflexivity|].
    rewrite merge_sort_Permutation.
    apply elem_of_map_to_list. rewrite lookup_fmap, He. reflexivity.
Qed.

(** C3, on the code.  After [SET k v] (no expiry) the snapshot written
    by [SAVE] holds for [k] the member [expiresAt] =
    -6795364578871345152, which is [UnixNano] of Go's zero Time, and not
    0. *)
Theorem SaveSnapshot_no_expiry_is_not_zero :
  let db := (DB_Set "k" (Some "v") 0 1000 empty_db).2 in
  data db !! "k" = Some (mkEntry (Some "v") time.zero)
  /\ snapshot (SaveSnapshot db).2
     = Some [("k", [("expiresAt", json.JNumber (-6795364578871345152));
                    ("value", json.JString "v")])].
Proof. split; vm_compute; reflexivity. Qed.

(** ** C4: what a failing append does to the reply *)

Lemma appendAOF_quiet cmd key value ttl db :
  io db = [] ->
  appendAOF cmd key value ttl db
  = (None, set_aof (fun f => (f ++ [JsonLine (json.Marshal (aof_record cmd key value ttl))])%list) db).
Proof.
  intros Hio. unfold appendAOF. rewrite (syscall_quiet _ Hio).
  simpl. rewrite syscall_quiet by exact Hio. reflexivity.
Qed.

Lemma del_record_line k :
  JsonLine (json.Marshal (aof_record "DEL" k None 0)) = del_line k.
Proof. reflexivity. Qed.

Lemma Del_loop_count keys n db :
  (Del_loop keys n db).1 = n + Z.of_nat (length (removed keys (data db))).
Proof.
  revert n db. induction keys as [|k keys IH]; intros n db; simpl; [lia|].
  destruct (data db !! k) as [e|] eqn:Hk; [|apply IH].
  destruct (appendAOF "DEL" k None 0 (set_data (delete k) db)) as [err db1] eqn:E.
  rewrite IH.
  assert (data db1 = delete k (data db)) as ->
    by (change db1 with (err, db1).2; rewrite <- E, appendAOF_data; reflexivity).
  simpl length. lia.
Qed.

Lemma Del_loop_log keys n db :
  io db = [] ->
  aof (Del_loop keys n db).2 = (aof db ++ (del_line <$> removed keys (data db)))%list
  /\ io (Del_loop keys n db).2 = [].
Proof.
  revert n db. induction keys as [|k keys IH]; intros n db Hio; simpl.
  - rewrite app_nil_r. split; [reflexivity | exact Hio].
  - destruct (data db !! k) as [e|] eqn:Hk; [|apply IH; exact Hio].
    rewrite appendAOF_quiet by exact Hio. rewrite del_record_line.
    destruct (IH (n + 1) (set_aof (fun f => (f ++ [del_line k])%list)
                            (set_data (delete k) db)) Hio) as [Ha Hi].
    split; [|exact Hi]. rewrite Ha. simpl. rewrite <- app_assoc. reflexivity.
Qed.

Section Server.

Context {lib : GoLib}.

Lemma dispatch_SET now args db :
  strings_ToUpper (nth 0 args EmptyString) = "SET" -> (3 <= length args)%nat ->
  dispatch now args db
  = match DB_Set (nth 1 args EmptyString) (Some (nth 2 args EmptyString))
            (px_ttl args) now db with
    | (Some err, db) => (["-ERR " ++ err ++ CRLF], db)
    | (None, db) => (["+OK" ++ CRLF], db)
    end.
Proof.
  intros Hcmd Hlen. unfold dispatch. rewrite Hcmd.
  destruct (decide ("SET" = "PING")) as [?|_]; [discriminate|].
  destruct (decide ("SET" = "SET")) as [_|?]; [|congruence].
  destruct (Nat.ltb_spec (length args) 3) as [?|_]; [lia|].
  reflexivity.
Qed.

Lemma dispatch_DEL now args db :
  strings_ToUpper (nth 0 args EmptyString) = "DEL" -> (2 <= length args)%nat ->
  dispatch now args db
  = ([":" ++ decimal (Del (tail args) db).1 ++ CRLF], (Del (tail args) db).2).
Proof.
  intros Hcmd Hlen. unfold dispatch. rewrite Hcmd.
  destruct (decide ("DEL" = "PING")) as [?|_]; [discriminate|].
  destruct (decide ("DEL" = "SET")) as [?|_]; [discriminate|].
  destruct (decide ("DEL" = "GET")) as [?|_]; [discriminate|].
  destruct (decide ("DEL" = "DEL")) as [_|?]; [|congruence].
  destruct (Nat.ltb_spec (length args) 2) as [?|_]; [lia|].
  destruct (Del (tail args) db); reflexivity.
Qed.

Lemma appendAOF_outcome cmd key value ttl db :
  appendAOF cmd key value ttl db
  = match io db with
    | Some e :: rest => (Some e, mkDB (data db) (aof db) (snapshot db) rest)
    | None :: rest =>
      (match rest with e :: _ => e | [] => None end,
       mkDB (data db)
            (aof db ++ [JsonLine (json.Marshal (aof_record cmd key value ttl))])%list
            (snapshot db) (tail rest))
    | [] =>
      (None,
       mkDB (data db)
            (aof db ++ [JsonLine (json.Marshal (aof_record cmd key value ttl))])%list
            (snapshot db) [])
    end.
Proof.
  unfold appendAOF, syscall, aof_record.
  destruct db as [d f sn os]. cbn [io data aof snapshot].
  destruct os as [|[e|] [|e' rest]]; reflexivity.
Qed.

Lemma Del_loop_logged keys n db :
  aof (Del_loop keys n db).2
  = (aof db ++ logged_removals (removed keys (data db)) (io db))%list.
Proof.
  revert n db. induction keys as [|k keys IH]; intros n db; cbn [Del_loop removed].
  - cbn. rewrite app_nil_r. reflexivity.
  - destruct (data db !! k) as [e|] eqn:Hk; [|apply IH].
    rewrite appendAOF_outcome. cbn [io data aof snapshot set_data].
    cbn [logged_removals]. rewrite del_record_line.
    destruct (io db) as [|[err|] rest]; rewrite IH; cbn [aof data io];
      [rewrite <- app_assoc | | rewrite <- app_assoc]; reflexivity.
Qed.

(** C4, amended.  Every removal of a [Del] call is logged on its own,
    whatever the operating system does: the call returns the number of
    keys it removed and appends to the log, in order, the DEL record of
    each removed key whose write succeeds; a removal whose write fails is
    logged nowhere, and the removals after it are logged all the same.
    When no call fails this is one DEL record per removed key.  A failure
    of the write or of the flush of the append during SET is surfaced to
    the client as the error reply.  During DEL it is not: the reply is
    the integer reply with the number of keys removed, whatever the
    appends did. *)
Theorem Del_logs_each_removal_and_drops_append_errors
    (now : time.Time) (args : list string) (db : DB) :
  (forall keys,
     aof (Del keys db).2
     = (aof db ++ logged_removals (removed keys (data db)) (io db))%list
     /\ (Del keys db).1 = Z.of_nat (length (removed keys (data db))))
  /\ (forall keys,
     io db = [] ->
     aof (Del keys db).2 = (aof db ++ (del_line <$> removed keys (data db)))%list
     /\ (Del keys db).1 = Z.of_nat (length (removed keys (data db))))
  /\ (strings_ToUpper (nth 0 args EmptyString) = "SET" -> (3 <= length args)%nat ->
      forall e rest,
        io db = Some e :: rest \/ io db = None :: Some e :: rest ->
        (dispatch now args db).1 = ["-ERR " ++ e ++ CRLF])
  /\ (strings_ToUpper (nth 0 args EmptyString) = "DEL" -> (2 <= length args)%nat ->
      (dispatch now args db).1
      = [":" ++ decimal (Z.of_nat (length (removed (tail args) (data db)))) ++ CRLF]).
Proof.
  split; [|split; [|split]].
  - intros keys. unfold Del. split.
    + apply Del_loop_logged.
    + rewrite Del_loop_count. lia.
  - intros keys Hio. unfold Del. split.
    + apply Del_loop_log. exact Hio.
    + rewrite Del_loop_count. lia.
  - intros Hcmd Hlen e rest Hio. rewrite dispatch_SET by assumption.
    rewrite DB_Set_unfold.
    set (db1 := set_data _ db).
    assert ((appendAOF "SET" (nth 1 args EmptyString)
               (Some (nth 2 args EmptyString)) (px_ttl args) db1).1 = Some e) as He.
    { destruct Hio as [Hio|Hio].
      - eapply appendAOF_write_fails. exact Hio.
      - eapply appendAOF_sync_fails. exact Hio. }
    destruct (appendAOF _ _ _ _ db1) as [err db2]. simpl in He. subst err.
    reflexivity.
  - intros Hcmd Hlen. rewrite dispatch_DEL by assumption. simpl.
    unfold Del. rewrite Del_loop_count. reflexivity.
Qed.

End Server.

(** C4, as stated, fails for DEL: when the write to the log fails,
    [DEL k] removes [k], logs nothing, and replies with the integer
    reply [:1], not with an error.  After [SET k v] and [DEL k] on a disk
    that is full after the first record, the store is empty and the log
    holds the SET alone. *)
Lemma DEL_reply_hides_append_failure :
  @dispatch ascii_lib 0 ["DEL"; "k"] failing_db = ([":1" ++ CRLF], mkDB ∅ [] None [])
  /\ @handleConn ascii_lib [(1000, wire "SET k v"); (2000, wire "DEL k")] filling_db
     = (["+OK" ++ CRLF; ":1" ++ CRLF],
        mkDB ∅ [JsonLine [("cmd", json.JString "SET"); ("key", json.JString "k");
                          ("value", json.JString "v")]] None []).
Proof. split; vm_compute; reflexivity. Qed.

Lemma Del_logs_each_removal_and_drops_append_errors_witness :
  strings_ToUpper (GoLib := ascii_lib) (nth 0 ["DEL"; "a"; "b"] EmptyString) = "DEL"
  /\ (2 <= length ["DEL"; "a"; "b"])%nat
  /\ (@dispatch ascii_lib 0 ["DEL"; "a"; "b"] two_keys_db).1 = [":2" ++ CRLF]
  /\ aof (Del ["a"; "b"] two_keys_db).2 = [del_line "b"]
  /\ (Del ["a"; "b"] two_keys_db).1 = 2.
Proof.
  split; [reflexivity|]. split; [simpl; lia|].
  destruct (@Del_logs_each_removal_and_drops_append_errors
              ascii_lib 0 ["DEL"; "a"; "b"] two_keys_db) as (Hlog & _ & _ & Hdel).
  split; [rewrite Hdel; [reflexivity | reflexivity | simpl; lia]|].
  destruct (Hlog ["a"; "b"]) as [Ha Hn].
  split; [rewrite Ha | rewrite Hn]; reflexivity.
Defined.

Section Protocol.

Context {lib : GoLib}.

(** ** C7: a PX value that does not parse *)

Lemma px_ttl_malformed args msg :
  time_ParseDuration (nth 4 args EmptyString ++ "ms") = inr msg -> px_ttl args = 0.
Proof.
  intros H. unfold px_ttl. rewrite H.
  destruct (_ && _); reflexivity.
Qed.

Lemma px_ttl_absent args : (length args < 5)%nat -> px_ttl args = 0.
Proof.
  intros H. unfold px_ttl.
  destruct (Nat.leb_spec 5 (length args)) as [?|_]; [lia | reflexivity].
Qed.

(** C7, amended.  For every SET command with a PX argument whose value
    the duration parser rejects ([time.ParseDuration] of the value
    followed by "ms" returns an error), the value is silently ignored:
    the command does what the same SET without the PX clause does.  The
    entry is stored with no expiry, and the reply is the status OK when
    the append to the log succeeds and the error reply of the append
    when its write or its flush fails. *)
Theorem SET_with_malformed_PX_is_stored_without_expiry
    (now : time.Time) (args : list string) (db : DB) (msg : string) :
  strings_ToUpper (nth 0 args EmptyString) = "SET" ->
  (5 <= length args)%nat ->
  strings_ToUpper (nth 3 args EmptyString) = "PX" ->
  time_ParseDuration (nth 4 args EmptyString ++ "ms") = inr msg ->
  data (dispatch now args db).2
  = <[nth 1 args EmptyString := mkEntry (Some (nth 2 args EmptyString)) time.zero]>
      (data db)
  /\ dispatch now args db = dispatch now (take 3 args) db
  /\ (dispatch now args db).1
     = [match (DB_Set (nth 1 args EmptyString) (Some (nth 2 args EmptyString))
                 0 now db).1 with
        | None => "+OK" ++ CRLF
        | Some err => "-ERR " ++ err ++ CRLF
        end]
  /\ ((DB_Set (nth 1 args EmptyString) (Some (nth 2 args EmptyString)) 0 now db).1
      = None ->
      (dispatch now args db).1 = ["+OK" ++ CRLF])
  /\ (forall e rest,
        io db = Some e :: rest \/ io db = None :: Some e :: rest ->
        (dispatch now args db).1 = ["-ERR " ++ e ++ CRLF]).
Proof.
  intros Hcmd Hlen Hpx Hbad.
  assert (dispatch now args db
          = match DB_Set (nth 1 args EmptyString) (Some (nth 2 args EmptyString))
                    0 now db with
            | (Some err, db) => (["-ERR " ++ err ++ CRLF], db)
            | (None, db) => (["+OK" ++ CRLF], db)
            end) as Hd.
  { rewrite dispatch_SET by (assumption || lia).
    rewrite (px_ttl_malformed _ _ Hbad). reflexivity. }
  assert ((dispatch now args db).1
          = [match (DB_Set (nth 1 args EmptyString) (Some (nth 2 args EmptyString))
                      0 now db).1 with
             | None => "+OK" ++ CRLF
             | Some err => "-ERR " ++ err ++ CRLF
             end]) as Hreply.
  { rewrite Hd. destruct (DB_Set _ _ 0 now db) as [[err|] db1]; reflexivity. }
  split; [|split; [|split; [exact Hreply|split]]].
  - pose proof (DB_Set_data (nth 1 args EmptyString)
                  (Some (nth 2 args EmptyString)) 0 now db) as Hs.
    rewrite Hd.
    destruct (DB_Set _ _ 0 now db) as [[err|] db1]; exact Hs.
  - rewrite Hd.
    destruct args as [|a0 [|a1 [|a2 rest]]]; simpl in Hlen; try lia.
    simpl take. rewrite dispatch_SET; [|exact Hcmd|simpl; lia].
    rewrite px_ttl_absent by (simpl; lia). reflexivity.
  - intros Hok. rewrite Hreply, Hok. reflexivity.
  - intros e rest Hio. rewrite Hreply, DB_Set_unfold.
    assert ((appendAOF "SET" (nth 1 args EmptyString) (Some (nth 2 args EmptyString)) 0
               (set_data <[nth 1 args EmptyString :=
                             entry_of (Some (nth 2 args EmptyString)) 0 now]> db)).1
            = Some e) as ->; [|reflexivity].
    destruct Hio as [Hio|Hio].
    + eapply appendAOF_write_fails. exact Hio.
    + eapply appendAOF_sync_fails. exact Hio.
Qed.

(** ** C8: an unknown command *)

Lemma handleConn_app before after db :
  handleConn (before ++ after) db
  = ((handleConn before db).1 ++ (handleConn after (handleConn before db).2).1,
     (handleConn after (handleConn before db).2).2)%list.
Proof.
  revert db. induction before as [|[now line] before IH]; intros db; simpl.
  - destruct (handleConn after db); reflexivity.
  - destruct (handleLine now line db) as [out db1].
    rewrite IH.
    destruct (handleConn before db1) as [outs db2]. simpl.
    destruct (handleConn after db2) as [outs' db3]. simpl.
    rewrite app_assoc. reflexivity.
Qed.

Lemma dispatch_unknown now args db :
  ~ known_command (strings_ToUpper (nth 0 args EmptyString)) ->
  dispatch now args db = (["-ERR unknown command" ++ CRLF], db).
Proof.
  intros Hun. unfold dispatch.
  repeat (destruct (decide _) as [Heq|_];
          [exfalso; apply Hun; rewrite Heq; unfold known_command; set_solver|]).
  reflexivity.
Qed.

(** C8.  For every line that is not blank and whose first word, in upper
    case, is none of PING, SET, GET, DEL and SAVE, the handler writes the
    one reply [-ERR unknown command] followed by CR LF and leaves the
    whole state as it was; the connection stays open: the lines that
    follow on the connection are served as they are without the unknown
    line, from the same state, and their replies follow. *)
Theorem unknown_command_replies_error_and_keeps_connection
    (now : time.Time) (line : string)
    (before after : list (time.Time * string)) (db : DB) :
  strings_TrimSpace line <> EmptyString ->
  splitArgs (strings_TrimSpace line) <> [] ->
  ~ known_command
      (strings_ToUpper (nth 0 (splitArgs (strings_TrimSpace line)) EmptyString)) ->
  handleLine now line db = (["-ERR unknown command" ++ CRLF], db)
  /\ handleConn (before ++ (now, line) :: after) db
     = (((handleConn before db).1
         ++ [("-ERR unknown command" ++ CRLF)%string]
         ++ (handleConn after (handleConn before db).2).1)%list,
        (handleConn (before ++ after) db).2).
Proof.
  intros Hline Hargs Hun.
  assert (forall d, handleLine now line d = (["-ERR unknown command" ++ CRLF], d)) as Hl.
  { intros d. unfold handleLine.
    destruct (decide (strings_TrimSpace line = EmptyString)) as [?|_]; [contradiction|].
    destruct (splitArgs (strings_TrimSpace line)) as [|a args] eqn:Ea; [contradiction|].
    simpl Nat.eqb. cbv iota. apply dispatch_unknown. exact Hun. }
  split; [apply Hl|].
  rewrite !handleConn_app. simpl. rewrite Hl.
  destruct (handleConn after (handleConn before db).2) as [outs db2]. reflexivity.
Qed.

End Protocol.

(** C7, as stated, fails in two ways.  On a machine whose write to the
    log fails, a SET with a PX value that the parser rejects stores the
    entry without expiry but replies with the error of the append, not
    with OK.  And a PX value that is no count of milliseconds may still
    parse: for [SET k v PX 1h30] the parser reads "1h30ms", one hour and
    30 ms, and the entry is stored with that expiry. *)
Lemma SET_with_bad_PX_replies_error_or_expires :
  (exists msg, time_ParseDuration (GoLib := ascii_lib) ("soon" ++ "ms") = inr msg)
  /\ @dispatch ascii_lib 1000 ["SET"; "k"; "v"; "PX"; "soon"] failing_db
     = (["-ERR write appendonly.aof: no space left on device" ++ CRLF],
        mkDB {["k" := mkEntry (Some "v") time.zero]} [] None [])
  /\ time_ParseDuration (GoLib := ascii_lib) ("1h30" ++ "ms") = inl 3600030000000
  /\ (@dispatch ascii_lib 1000 ["SET"; "k"; "v"; "PX"; "1h30"] empty_db).1
     = ["+OK" ++ CRLF]
  /\ data (@dispatch ascii_lib 1000 ["SET"; "k"; "v"; "PX"; "1h30"] empty_db).2 !! "k"
     = Some (mkEntry (Some "v") (1000 + 3600030000000)).
Proof.
  split; [eexists; reflexivity|].
  repeat split; vm_compute; reflexivity.
Qed.

Lemma SET_with_malformed_PX_is_stored_without_expiry_witness :
  strings_ToUpper (GoLib := ascii_lib) (nth 0 ["set"; "k"; "v"; "px"; "soon"] EmptyString) = "SET"
  /\ (5 <= length ["set"; "k"; "v"; "px"; "soon"])%nat
  /\ strings_ToUpper (GoLib := ascii_lib) (nth 3 ["set"; "k"; "v"; "px"; "soon"] EmptyString) = "PX"
  /\ (exists msg, time_ParseDuration (GoLib := ascii_lib) ("soon" ++ "ms") = inr msg)
  /\ data (@dispatch ascii_lib 1000 ["set"; "k"; "v"; "px"; "soon"] empty_db).2
     = <["k" := mkEntry (Some "v") time.zero]> ∅
  /\ (@dispatch ascii_lib 1000 ["set"; "k"; "v"; "px"; "soon"] empty_db).1 = ["+OK" ++ CRLF]
  /\ (@dispatch ascii_lib 1000 ["set"; "k"; "v"; "px"; "soon"] failing_db).1
     = ["-ERR write appendonly.aof: no space left on device" ++ CRLF].
Proof.
  split; [reflexivity|]. split; [simpl; lia|]. split; [reflexivity|].
  split; [eexists; reflexivity|].
  destruct (@SET_with_malformed_PX_is_stored_without_expiry
              ascii_lib 1000 ["set"; "k"; "v"; "px"; "soon"] empty_db _
              eq_refl ltac:(simpl; lia) eq_refl eq_refl) as (Hd & _ & _ & Hok & _).
  destruct (@SET_with_malformed_PX_is_stored_without_expiry
              ascii_lib 1000 ["set"; "k"; "v"; "px"; "soon"] failing_db _
              eq_refl ltac:(simpl; lia) eq_refl eq_refl) as (_ & _ & _ & _ & Herr).
  split; [exact Hd|]. split; [apply Hok; reflexivity|].
  apply (Herr _ []). left. reflexivity.
Defined.

Lemma unknown_command_replies_error_and_keeps_connection_witness :
  strings_TrimSpace (GoLib := ascii_lib) (wire "FOO") <> EmptyString
  /\ splitArgs (lib := ascii_lib) (strings_TrimSpace (GoLib := ascii_lib) (wire "FOO")) <> []
  /\ ~ known_command
         (strings_ToUpper (GoLib := ascii_lib)
            (nth 0 (splitArgs (lib := ascii_lib)
                      (strings_TrimSpace (GoLib := ascii_lib) (wire "FOO")))
               EmptyString))
  /\ (@handleConn ascii_lib
        [(1000, wire "SET foo bar"); (2000, wire "FOO"); (3000, wire "GET foo")]
        empty_db).1
     = ["+OK" ++ CRLF; "-ERR unknown command" ++ CRLF;
        "$3" ++ CRLF ++ "bar" ++ CRLF].
Proof.
  assert (strings_TrimSpace (GoLib := ascii_lib) (wire "FOO") <> EmptyString) as H1
    by discriminate.
  assert (splitArgs (lib := ascii_lib)
            (strings_TrimSpace (GoLib := ascii_lib) (wire "FOO")) <> []) as H2
    by discriminate.
  assert (~ known_command
            (strings_ToUpper (GoLib := ascii_lib)
               (nth 0 (splitArgs (lib := ascii_lib)
                         (strings_TrimSpace (GoLib := ascii_lib) (wire "FOO")))
                  EmptyString))) as H3.
  { vm_compute. intros Hk. apply list_elem_of_In in Hk. simpl in Hk.
    repeat (destruct Hk as [Hk|Hk]; [discriminate|]). exact Hk. }
  split; [exact H1|]. split; [exact H2|]. split; [exact H3|].
  destruct (@unknown_command_replies_error_and_keeps_connection
              ascii_lib 2000 (wire "FOO")
              [(1000, wire "SET foo bar")] [(3000, wire "GET foo")] empty_db
              H1 H2 H3) as [_ H].
  refine (eq_trans (f_equal fst H) _). reflexivity.
Defined.

(** ** C2: replaying the log *)

Lemma coerce_valid_from (p : nat) (s : string) :
  utf8.valid_from p s = true -> utf8.coerce_from p s = s.
Proof.
  revert p. induction s as [|c s IH]; intros p; simpl; [reflexivity|].
  destruct p as [|p].
  - destruct (utf8.invalid_head (String c s)); [discriminate|].
    intros H. rewrite (IH _ H). reflexivity.
  - intros H. rewrite (IH _ H). reflexivity.
Qed.

Lemma coerce_valid (s : string) : utf8.ValidString s = true -> utf8.coerce s = s.
Proof. apply coerce_valid_from. Qed.

Lemma float64_of_Z_exact (n : Z) :
  Z.abs n < 2 ^ 53 -> json.float64_of_Z n = n.
Proof.
  intros Hn. unfold json.float64_of_Z.
  destruct (Z.leb_spec (Z.log2 (Z.abs n) + 1 - 53) 0) as [_|Hk]; [reflexivity|].
  exfalso.
  destruct (Z.eq_dec (Z.abs n) 0) as [E|E].
  - rewrite E in Hk. simpl in Hk. lia.
  - assert (Z.log2 (Z.abs n) < 53); [|lia].
    apply Z.log2_lt_pow2; lia.
Qed.

Lemma whole_milliseconds (ttl : time.Duration) :
  0 < ttl -> ttl < 2 ^ 63 ->
  let ms := Z.quot ttl time.Millisecond in
  0 <= ms /\ ms < 2 ^ 53 /\ ms * time.Millisecond <= ttl.
Proof.
  intros Hpos Hmax ms. subst ms. unfold time.Millisecond.
  rewrite Z.quot_div_nonneg by lia.
  pose proof (Z.mul_div_le ttl 1000000 ltac:(lia)).
  assert (ttl / 1000000 < 2 ^ 53) by (apply Z.div_lt_upper_bound; lia).
  assert (0 <= ttl / 1000000) by (apply Z.div_pos; lia).
  lia.
Qed.

Lemma wrap64_small (z : Z) : - 2 ^ 63 <= z < 2 ^ 63 -> wrap64 z = z.
Proof. intros H. unfold wrap64. rewrite Z.mod_small; lia. Qed.

Section Replay.

Context {lib : GoLib}.
Hypothesis ToUpper_SET : strings_ToUpper "SET" = "SET".
Hypothesis ToUpper_DEL : strings_ToUpper "DEL" = "DEL".

Variable clock : nat -> time.Time.

(** What the replay makes of the line of a SET. *)
Lemma loadAOF_line_SET now key v ttl m :
  utf8.ValidString key = true -> utf8.ValidString v = true -> ttl < 2 ^ 63 ->
  loadAOF_line now (JsonLine (json.Marshal (aof_record "SET" key (Some v) ttl))) m
  = <[key := mkEntry (Some v) (replayed_expiry ttl now)]> m.
Proof.
  intros Hk Hv Hmax. unfold aof_record, replayed_expiry.
  destruct (Z.ltb_spec 0 ttl) as [Hpos|Hneg].
  - destruct (whole_milliseconds ttl Hpos Hmax) as (Hms0 & Hms53 & Hle).
    set (ms := Z.quot ttl time.Millisecond) in *.
    change (json.Marshal _) with
      [("cmd", json.JString "SET"); ("key", json.JString key);
       ("ttl_ms", json.JNumber ms); ("value", json.JString v)].
    unfold loadAOF_line.
    change (json.Unmarshal _ !! "cmd") with (Some (I_string "SET")).
    change (json.Unmarshal _ !! "key") with (Some (I_string (utf8.coerce key))).
    change (json.Unmarshal _ !! "value") with (Some (I_string (utf8.coerce v))).
    change (json.Unmarshal _ !! "ttl_ms") with (Some (I_float64 (json.float64_of_Z ms))).
    simpl Sprintf_v. rewrite ToUpper_SET, (coerce_valid _ Hk), (coerce_valid _ Hv).
    destruct (decide ("SET" = "SET")) as [_|?]; [|congruence].
    rewrite float64_of_Z_exact by lia.
    assert (int64_of_float64 ms = ms) as ->.
    { unfold int64_of_float64.
      destruct (Z.leb_spec (- 2 ^ 63) ms); [|lia].
      destruct (Z.ltb_spec ms (2 ^ 63)); [reflexivity | lia]. }
    rewrite wrap64_small by (unfold time.Millisecond in *; lia).
    destruct (Z.ltb_spec 0 ms) as [Hp|Hz].
    + destruct (Z.ltb_spec 0 (ms * time.Millisecond)) as [_|?];
        [|unfold time.Millisecond in *; lia].
      rewrite alter_insert_eq. reflexivity.
    + assert (ms = 0) as -> by lia. reflexivity.
  - assert (Z.quot ttl time.Millisecond <= 0) as Hq.
    { unfold time.Millisecond. apply Z.quot_le_upper_bound; lia. }
    destruct (Z.ltb_spec 0 (Z.quot ttl time.Millisecond)) as [?|_]; [lia|].
    change (json.Marshal _) with
      [("cmd", json.JString "SET"); ("key", json.JString key);
       ("value", json.JString v)].
    unfold loadAOF_line.
    change (json.Unmarshal _ !! "cmd") with (Some (I_string "SET")).
    change (json.Unmarshal _ !! "key") with (Some (I_string (utf8.coerce key))).
    change (json.Unmarshal _ !! "value") with (Some (I_string (utf8.coerce v))).
    change (json.Unmarshal _ !! "ttl_ms") with (@None iface).
    simpl Sprintf_v. rewrite ToUpper_SET, (coerce_valid _ Hk), (coerce_valid _ Hv).
    destruct (decide ("SET" = "SET")) as [_|?]; [|congruence].
    reflexivity.
Qed.

(** What the replay makes of the line of a removal. *)
Lemma loadAOF_line_DEL now key m :
  utf8.ValidString key = true ->
  loadAOF_line now (del_line key) m = delete key m.
Proof.
  intros Hk. unfold del_line, loadAOF_line.
  change (json.Unmarshal _ !! "cmd") with (Some (I_string "DEL")).
  change (json.Unmarshal _ !! "key") with (Some (I_string (utf8.coerce key))).
  simpl Sprintf_v. rewrite ToUpper_DEL, (coerce_valid _ Hk).
  destruct (decide ("DEL" = "SET")) as [?|_]; [discriminate|].
  destruct (decide ("DEL" = "DEL")) as [_|?]; [|congruence].
  reflexivity.
Qed.

Lemma loadAOF_loop_app i l1 l2 m :
  loadAOF_loop clock i (l1 ++ l2) m
  = loadAOF_loop clock (i + length l1) l2 (loadAOF_loop clock i l1 m).
Proof.
  revert i m. induction l1 as [|l l1 IH]; intros i m; simpl.
  - rewrite Nat.add_0_r. reflexivity.
  - rewrite IH, Nat.add_succ_r. reflexivity.
Qed.

Lemma Scan_fits lines : Forall fits lines -> Scan lines = lines.
Proof.
  induction 1 as [|l lines Hl _ IH]; simpl; [reflexivity|].
  unfold fits in Hl.
  destruct (Z.ltb_spec (Z.of_nat (String.length (line_text l))) MaxScanTokenSize);
    [rewrite IH; reflexivity | lia].
Qed.

Lemma in_force_Set key v ttl now db h :
  io db = [] ->
  utf8.ValidString key = true -> utf8.ValidString v = true -> ttl < 2 ^ 63 ->
  in_force clock db h ->
  in_force clock (DB_Set key (Some v) ttl now db).2
    (<[key := mkInfo (Some v) ttl now (length (aof db))]> h)
  /\ io (DB_Set key (Some v) ttl now db).2 = []
  /\ length (aof (DB_Set key (Some v) ttl now db).2) = S (length (aof db)).
Proof.
  intros Hio Hk Hv Hmax (Hd & Hr & Hl).
  rewrite DB_Set_unfold, appendAOF_quiet by exact Hio.
  cbn [snd set_aof set_data data aof io snapshot].
  split; [|split; [exact Hio | rewrite length_app; simpl; lia]].
  split; [|split].
  - cbn [data aof set_aof set_data]. rewrite Hd, fmap_insert. reflexivity.
  - cbn [data aof set_aof set_data]. rewrite loadAOF_loop_app. cbn [loadAOF_loop].
    rewrite (loadAOF_line_SET _ _ _ _ _ Hk Hv Hmax), Hr, fmap_insert.
    reflexivity.
  - cbn [data aof set_aof set_data]. intros k s Hs.
    destruct (decide (key = k)) as [->|Hne].
    + rewrite lookup_insert_eq in Hs. injection Hs as <-. cbn [set_line].
      apply list_lookup_middle. reflexivity.
    + rewrite lookup_insert_ne in Hs by exact Hne.
      apply lookup_app_l_Some. apply Hl. exact Hs.
Qed.

Lemma in_force_Del_loop keys n db h :
  io db = [] ->
  Forall (fun k => utf8.ValidString k = true) keys ->
  in_force clock db h ->
  in_force clock (Del_loop keys n db).2 (foldl (fun h k => delete k h) h keys)
  /\ io (Del_loop keys n db).2 = []
  /\ length (aof (Del_loop keys n db).2)
     = (length (aof db) + length (removed_from keys h))%nat.
Proof.
  intros Hio Hkeys. revert n db h Hio.
  induction Hkeys as [|k keys Hk _ IH]; intros n db h Hio Hin.
  - cbn. split; [exact Hin|]. split; [exact Hio | lia].
  - pose proof Hin as (Hd & Hr & Hl).
    assert (data db !! k = direct_entry <$> h !! k) as Hlk
      by (rewrite Hd, lookup_fmap; reflexivity).
    cbn [Del_loop foldl removed_from].
    destruct (h !! k) as [s|] eqn:Hs; cbn [fmap option_fmap option_map] in Hlk;
      rewrite Hlk.
    + rewrite appendAOF_quiet by exact Hio. rewrite del_record_line.
      set (db1 := set_aof _ (set_data (delete k) db)).
      assert (in_force clock db1 (delete k h)) as Hin1.
      { split; [|split].
        - subst db1. cbn [data set_aof set_data]. rewrite Hd, fmap_delete. reflexivity.
        - subst db1. cbn [aof set_aof set_data data snapshot io].
          rewrite loadAOF_loop_app. cbn [loadAOF_loop].
          rewrite (loadAOF_line_DEL _ _ _ Hk), Hr, fmap_delete. reflexivity.
        - subst db1. cbn [aof set_aof set_data data snapshot io].
          intros k' s' Hs'. apply lookup_delete_Some in Hs' as [_ Hs'].
          apply lookup_app_l_Some. apply (Hl _ _ Hs'). }
      destruct (IH (n + 1) db1 (delete k h) Hio Hin1) as (H1 & H2 & H3).
      split; [exact H1|]. split; [exact H2|]. rewrite H3.
      subst db1. cbn [aof set_aof set_data data snapshot io].
      rewrite length_app. simpl. lia.
    + rewrite (delete_id _ _ Hs). apply IH; assumption.
Qed.

(** The invariant of the round trip: after any operations that the log
    can hold, the store and the replay of the log are both made of the
    SETs in force. *)
Lemma in_force_apply_ops ops db h :
  io db = [] -> Forall textual ops -> in_force clock db h ->
  in_force clock (apply_ops ops db) (sets_in_force (length (aof db)) ops h)
  /\ io (apply_ops ops db) = [].
Proof.
  intros Hio Hops. revert db h Hio.
  induction Hops as [|o ops Ho _ IH]; intros db h Hio Hin.
  - split; [exact Hin | exact Hio].
  - destruct o as [key value ttl now|keys]; cbn [textual] in Ho.
    + destruct Ho as (Hk & (v & -> & Hv) & Hmax).
      destruct (in_force_Set key v ttl now db h Hio Hk Hv Hmax Hin) as (H1 & H2 & H3).
      unfold apply_ops in *. cbn [foldl apply_op sets_in_force].
      rewrite <- H3. apply IH; assumption.
    + destruct (in_force_Del_loop keys 0 db h Hio Ho Hin) as (H1 & H2 & H3).
      unfold apply_ops in *. cbn [foldl apply_op sets_in_force]. unfold Del.
      rewrite <- H3. apply IH; assumption.
Qed.

End Replay.

Lemma Forall_fits lines :
  forallb (fun l => Z.of_nat (String.length (line_text l)) <? MaxScanTokenSize) lines
  = true ->
  Forall fits lines.
Proof.
  induction lines as [|l lines IH]; simpl; [constructor|].
  rewrite andb_true_iff. intros [Hl Hr].
  constructor; [apply Z.ltb_lt; exact Hl | apply IH; exact Hr].
Qed.

Lemma foldl_delete_Some {A} (keys : list string) (h : gmap string A) k s :
  foldl (fun h k => delete k h) h keys !! k = Some s -> h !! k = Some s.
Proof.
  revert h. induction keys as [|k0 keys IH]; intros h; cbn [foldl]; [tauto|].
  intros H. apply IH in H. apply lookup_delete_Some in H as [_ H]. exact H.
Qed.

(** A SET in force is a SET of the sequence, or was in force before. *)
Lemma sets_in_force_origin ops i h k s :
  sets_in_force i ops h !! k = Some s ->
  h !! k = Some s \/ OpSet k (set_value s) (set_ttl s) (set_time s) ∈ ops.
Proof.
  revert i h. induction ops as [|o ops IH]; intros i h; cbn [sets_in_force].
  - intros H. left. exact H.
  - destruct o as [key value ttl now|keys]; intros H;
      apply IH in H as [H|H]; try (right; apply elem_of_cons; right; exact H).
    + destruct (decide (key = k)) as [->|Hne].
      * rewrite lookup_insert_eq in H. injection H as <-.
        right. apply elem_of_cons. left. reflexivity.
      * rewrite lookup_insert_ne in H by exact Hne. left. exact H.
    + left. eapply foldl_delete_Some. exact H.
Qed.

(** C2, as stated, fails for a value that is not UTF-8: after
    [SET k <0xFF>] the store holds the byte 0xFF for [k], the log holds
    the escape of U+FFFD in its place, and the replay gives [k] the three
    bytes of U+FFFD. *)
Lemma replay_changes_a_value_that_is_not_UTF8 :
  let direct := apply_ops [OpSet "k" (Some byte_ff) 0 1000] empty_db in
  let replayed := restart (lib := ascii_lib) (fun _ => 2000) direct in
  data direct !! "k" = Some (mkEntry (Some byte_ff) time.zero)
  /\ data replayed !! "k" = Some (mkEntry (Some utf8.replacement) time.zero)
  /\ byte_ff <> utf8.replacement.
Proof. split; [|split]; [vm_compute; reflexivity | vm_compute; reflexivity | discriminate]. Qed.

(** C2, amended.  For every sequence of SET/DEL operations whose keys and
    values are well-formed UTF-8 text (the value of a SET not being the
    nil slice, its ttl an int64), applied to the empty store on a machine
    where no write fails, and whose log lines each fit the buffer of the
    scanner: replaying the log into an empty store yields the same final
    key set and the same values as applying the operations directly.
    Both stores hold, for every key, the entry of the SET of the sequence
    that is in force for it, which is a SET of the sequence and has its
    line in the log: in the direct store with the expiry [t0 + ttl] of
    that SET, run at [t0], and in the replayed store with an expiry
    computed afresh, the time the clock shows when the line of that SET
    is replayed plus its ttl cut to whole milliseconds (none for a ttl
    below one millisecond). *)
Theorem replay_reproduces_keys_and_values
    {lib : GoLib} (clock : nat -> time.Time) (ops : list op) :
  strings_ToUpper "SET" = "SET" ->
  strings_ToUpper "DEL" = "DEL" ->
  Forall textual ops ->
  Forall fits (aof (apply_ops ops empty_db)) ->
  let direct := apply_ops ops empty_db in
  let replayed := restart clock direct in
  let sets := sets_in_force 0 ops ∅ in
  dom (data replayed) = dom (data direct)
  /\ (forall k, Value <$> data replayed !! k = Value <$> data direct !! k)
  /\ (forall k,
        data direct !! k
        = (fun s => mkEntry (set_value s)
                      (if 0 <? set_ttl s
                       then time.Add (set_time s) (set_ttl s)
                       else time.zero)) <$> sets !! k)
  /\ (forall k,
        data replayed !! k
        = (fun s => mkEntry (set_value s)
                      (if 0 <? Z.quot (set_ttl s) time.Millisecond
                       then time.Add (clock (set_line s))
                              (Z.quot (set_ttl s) time.Millisecond * time.Millisecond)
                       else time.zero)) <$> sets !! k)
  /\ (forall k s,
        sets !! k = Some s ->
        OpSet k (set_value s) (set_ttl s) (set_time s) ∈ ops
        /\ aof direct !! set_line s
           = Some (JsonLine (json.Marshal
                               (aof_record "SET" k (set_value s) (set_ttl s))))).
Proof.
  intros HSET HDEL Hops Hfit direct replayed sets.
  assert (in_force clock empty_db ∅) as H0.
  { split; [|split]; [reflexivity | reflexivity |].
    intros k s Hs. rewrite lookup_empty in Hs. discriminate. }
  destruct (in_force_apply_ops HSET HDEL clock ops empty_db ∅ eq_refl Hops H0)
    as [(Hd & Hr & Hl) _].
  change (length (aof empty_db)) with 0%nat in *.
  fold direct in Hd, Hr, Hl. fold sets in Hd, Hr, Hl.
  assert (data replayed = replayed_entry clock <$> sets) as Hrep.
  { subst replayed. unfold restart, loadAOF.
    cbn [syscall io fst snd set_data data aof].
    rewrite Scan_fits by exact Hfit. exact Hr. }
  split; [rewrite Hrep, Hd, !dom_fmap_L; reflexivity|].
  split; [intros k; rewrite Hrep, Hd, !lookup_fmap;
          destruct (sets !! k); reflexivity|].
  split; [intros k; rewrite Hd, lookup_fmap; reflexivity|].
  split; [intros k; rewrite Hrep, lookup_fmap; reflexivity|].
  intros k s Hs. split; [|exact (Hl k s Hs)].
  destruct (sets_in_force_origin ops 0 ∅ k s Hs) as [H|H]; [|exact H].
  rewrite lookup_empty in H. discriminate.
Qed.

Lemma replay_reproduces_keys_and_values_witness :
  strings_ToUpper (GoLib := ascii_lib) "SET" = "SET"
  /\ strings_ToUpper (GoLib := ascii_lib) "DEL" = "DEL"
  /\ Forall textual sample_ops
  /\ Forall fits (aof (apply_ops sample_ops empty_db))
  /\ dom (data (restart (lib := ascii_lib) (fun i => 5000 + Z.of_nat i)
                  (apply_ops sample_ops empty_db)))
     = dom (data (apply_ops sample_ops empty_db))
  /\ data (apply_ops sample_ops empty_db) !! "foo"
     = Some (mkEntry (Some "bar") (1000 + 1500000))
  /\ data (restart (lib := ascii_lib) (fun i => 5000 + Z.of_nat i)
             (apply_ops sample_ops empty_db)) !! "foo"
     = Some (mkEntry (Some "bar") (5000 + 1000000)).
Proof.
  assert (Forall textual sample_ops) as H3.
  { repeat constructor; eexists; split; reflexivity. }
  assert (Forall fits (aof (apply_ops sample_ops empty_db))) as H4.
  { apply Forall_fits. vm_compute. reflexivity. }
  split; [reflexivity|]. split; [reflexivity|]. split; [exact H3|]. split; [exact H4|].
  destruct (@replay_reproduces_keys_and_values ascii_lib
              (fun i => 5000 + Z.of_nat i) sample_ops eq_refl eq_refl H3 H4)
    as (Hdom & _ & Hd & Hr & _).
  split; [exact Hdom|]. split; [rewrite Hd | rewrite Hr]; reflexivity.
Defined.

(** * Further properties of main.go *)

(** ** Set and Get *)

(** X1.  A read after a write returns what was written: after
    [Set key value ttl] at [t0], whether or not the append to the log
    failed, [Get key] returns the value at any time when the ttl is not
    positive, and at any time up to [t0 + ttl] otherwise. *)
Theorem Get_after_Set_returns_value
    (key : string) (value : option string) (ttl : time.Duration)
    (t0 now : time.Time) (db : DB) :
  ttl <= 0 \/ now <= t0 + ttl ->
  (Get key now (DB_Set key value ttl t0 db).2).1 = (value, true).
Proof.
  intros H.
  assert (data (DB_Set key value ttl t0 db).2 !! key = Some (entry_of value ttl t0))
    as Hent by (rewrite DB_Set_data; apply lookup_insert_eq).
  rewrite (Get_found _ _ _ _ Hent); [reflexivity|].
  apply not_true_is_false. rewrite expired_spec.
  unfold entry_of, time.Add, time.zero. simpl.
  destruct (Z.ltb_spec 0 ttl); simpl; lia.
Qed.

Lemma Get_after_Set_returns_value_witness :
  (5 <= 0 \/ 1003 <= 1000 + 5)
  /\ (Get "k" 1003 (DB_Set "k" (Some "v") 5 1000 failing_db).2).1 = (Some "v", true).
Proof.
  assert (5 <= 0 \/ 1003 <= 1000 + 5) as H by (right; lia).
  split; [exact H|].
  exact (Get_after_Set_returns_value "k" (Some "v") 5 1000 1003 failing_db H).
Defined.

(** X2.  [Set] touches one key: a read of any other key gives after the
    [Set] what it gave before, and of two [Set]s of the same key the
    second decides the entry (the map is the one the second [Set] alone
    would have made). *)
Theorem Set_touches_only_its_key
    (key : string) (v1 v2 : option string) (ttl1 ttl2 : time.Duration)
    (t1 t2 now : time.Time) (db : DB) :
  (forall k, k <> key ->
     (Get k now (DB_Set key v1 ttl1 t1 db).2).1 = (Get k now db).1)
  /\ data (DB_Set key v2 ttl2 t2 (DB_Set key v1 ttl1 t1 db).2).2
     = data (DB_Set key v2 ttl2 t2 db).2.
Proof.
  split.
  - intros k Hk. unfold Get. rewrite DB_Set_data.
    rewrite lookup_insert_ne by congruence.
    destruct (data db !! k) as [e|]; [|reflexivity].
    destruct (expired now e); reflexivity.
  - rewrite !DB_Set_data. apply insert_insert_eq.
Qed.

(** ** Del *)

Lemma Del_loop_lookup keys n db k :
  (k ∈ keys -> data (Del_loop keys n db).2 !! k = None)
  /\ (k ∉ keys -> data (Del_loop keys n db).2 !! k = data db !! k).
Proof.
  revert n db. induction keys as [|k0 keys IH]; intros n db.
  - split; [intros H; inversion H | reflexivity].
  - assert (forall n' db', data db' = delete k0 (data db) \/ (data db' = data db /\ data db !! k0 = None) ->
              (k ∈ k0 :: keys -> data (Del_loop keys n' db').2 !! k = None)
              /\ (k ∉ k0 :: keys -> data (Del_loop keys n' db').2 !! k = data db !! k)) as Hstep.
    { intros n' db' Hd. destruct (IH n' db') as [IH1 IH2]. split.
      - intros Hin. destruct (decide (k ∈ keys)) as [Hk|Hk]; [apply IH1; exact Hk|].
        apply elem_of_cons in Hin as [->|Hin]; [|contradiction].
        rewrite (IH2 Hk). destruct Hd as [->|[-> Hn]];
          [apply lookup_delete_eq | exact Hn].
      - intros Hnin. apply not_elem_of_cons in Hnin as [Hne Hk].
        rewrite (IH2 Hk). destruct Hd as [->|[-> _]];
          [apply lookup_delete_ne; congruence | reflexivity]. }
    cbn [Del_loop]. destruct (data db !! k0) as [e|] eqn:He.
    + destruct (appendAOF "DEL" k0 None 0 (set_data (delete k0) db)) as [err db1] eqn:E.
      apply Hstep. left. change db1 with (err, db1).2.
      rewrite <- E, appendAOF_data. reflexivity.
    + apply Hstep. right. split; reflexivity.
Qed.

Lemma Del_loop_size keys n db :
  Z.of_nat (size (data db)) + n
  = (Del_loop keys n db).1 + Z.of_nat (size (data (Del_loop keys n db).2)).
Proof.
  revert n db. induction keys as [|k keys IH]; intros n db; cbn [Del_loop].
  - simpl. lia.
  - destruct (data db !! k) as [e|] eqn:He; [|apply IH].
    destruct (appendAOF "DEL" k None 0 (set_data (delete k) db)) as [err db1] eqn:E.
    rewrite <- IH.
    assert (data db1 = delete k (data db)) as ->
      by (change db1 with (err, db1).2; rewrite <- E, appendAOF_data; reflexivity).
    rewrite map_size_delete_Some by (rewrite He; eauto).
    assert (size (data db) <> 0%nat); [|lia].
    apply map_size_ne_0_lookup. exists k. rewrite He. eauto.
Qed.

(** X3.  After [Del keys] no listed key is in the map and every other
    key holds what it held; the number returned is the number of entries
    by which the map shrank, so a key listed twice counts once and an
    absent key not at all.  This holds whatever the appends to the log
    did. *)
Theorem Del_removes_the_listed_keys_and_counts_them
    (keys : list string) (db : DB) :
  (forall k, k ∈ keys -> data (Del keys db).2 !! k = None)
  /\ (forall k, k ∉ keys -> data (Del keys db).2 !! k = data db !! k)
  /\ (Del keys db).1
     = Z.of_nat (size (data db)) - Z.of_nat (size (data (Del keys db).2))
  /\ 0 <= (Del keys db).1 <= Z.of_nat (length keys).
Proof.
  split; [|split; [|split]].
  - intros k. apply Del_loop_lookup.
  - intros k. apply Del_loop_lookup.
  - pose proof (Del_loop_size keys 0 db). unfold Del. lia.
  - unfold Del. rewrite Del_loop_count.
    assert (forall m, length (removed keys m) <= length keys)%nat as Hl.
    { induction keys as [|k ks IH]; intros m; simpl; [lia|].
      destruct (m !! k); simpl; [specialize (IH (delete k m)) | specialize (IH m)]; lia. }
    specialize (Hl (data db)). lia.
Qed.

(** X4.  [Del] does not look at the expiry: an entry that has expired
    but is still in the map, which [Get] reports as not found, is removed
    and counted by [Del]. *)
Theorem Del_counts_an_expired_entry
    (k : string) (e : entry) (now : time.Time) (db : DB) :
  data db !! k = Some e ->
  ExpiresAt e <> time.zero -> ExpiresAt e < now ->
  (Get k now db).1 = (None, false) /\ (Del [k] db).1 = 1.
Proof.
  intros He Hnz Hlt. split.
  - rewrite (Get_expired _ _ _ _ He); [reflexivity|].
    apply expired_spec. split; assumption.
  - unfold Del. rewrite (Del_loop_present _ _ _ _ _ He). reflexivity.
Qed.

Lemma Del_counts_an_expired_entry_witness :
  data (DB_Set "k" (Some "v") 5 1000 empty_db).2 !! "k" = Some (mkEntry (Some "v") 1005)
  /\ 1005 <> time.zero /\ 1005 < 2000
  /\ (Get "k" 2000 (DB_Set "k" (Some "v") 5 1000 empty_db).2).1 = (None, false)
  /\ (Del ["k"] (DB_Set "k" (Some "v") 5 1000 empty_db).2).1 = 1.
Proof.
  assert (data (DB_Set "k" (Some "v") 5 1000 empty_db).2 !! "k"
          = Some (mkEntry (Some "v") 1005)) as H1 by reflexivity.
  assert (1005 <> time.zero) as H2 by discriminate.
  assert (1005 < 2000) as H3 by lia.
  split; [exact H1|]. split; [exact H2|]. split; [exact H3|].
  exact (Del_counts_an_expired_entry "k" (mkEntry (Some "v") 1005) 2000
           (DB_Set "k" (Some "v") 5 1000 empty_db).2 H1 H2 H3).
Defined.

(** ** The reaper *)

Lemma expiryTick_lookup now db k :
  data (expiryTick now db) !! k
  = match data db !! k with
    | Some e => if expired now e then None else Some e
    | None => None
    end.
Proof.
  unfold expiryTick. simpl. rewrite expiry_fold_lookup.
  destruct (data db !! k) as [e|]; [|reflexivity].
  destruct (expired now e); reflexivity.
Qed.

Lemma expired_later now now' e :
  now <= now' -> expired now e = true -> expired now' e = true.
Proof. rewrite !expired_spec. lia. Qed.

Lemma DB_ext (a b : DB) :
  data a = data b -> aof a = aof b -> snapshot a = snapshot b -> io a = io b -> a = b.
Proof. destruct a, b. simpl. intros -> -> -> ->. reflexivity. Qed.

Lemma expiryTick_absorbs now now' db :
  now <= now' -> expiryTick now' (expiryTick now db) = expiryTick now' db.
Proof.
  intros Hle. apply DB_ext; try reflexivity.
  apply map_eq. intros k. rewrite !expiryTick_lookup.
  destruct (data db !! k) as [e|]; [|reflexivity].
  destruct (expired now e) eqn:E1; [|reflexivity].
  rewrite (expired_later _ _ _ Hle E1). reflexivity.
Qed.

(** X5.  The reaper is invisible to readers: a [Get] at the time of a
    tick or later returns after the tick exactly what it would have
    returned without it. *)
Theorem expiryTick_does_not_change_reads
    (now now' : time.Time) (k : string) (db : DB) :
  now <= now' ->
  (Get k now' (expiryTick now db)).1 = (Get k now' db).1.
Proof.
  intros Hle. unfold Get. rewrite expiryTick_lookup.
  destruct (data db !! k) as [e|]; [|reflexivity].
  destruct (expired now e) eqn:E1.
  - rewrite (expired_later _ _ _ Hle E1). reflexivity.
  - destruct (expired now' e); reflexivity.
Qed.

Lemma expiryTick_does_not_change_reads_witness :
  1500 <= 2000
  /\ (Get "k" 2000 (expiryTick 1500 (DB_Set "k" (Some "v") 5 1000 empty_db).2)).1
     = (Get "k" 2000 (DB_Set "k" (Some "v") 5 1000 empty_db).2).1.
Proof.
  assert (1500 <= 2000) as H by lia. split; [exact H|].
  exact (expiryTick_does_not_change_reads 1500 2000 "k"
           (DB_Set "k" (Some "v") 5 1000 empty_db).2 H).
Defined.

(** X6.  The ticks of the reaper add up to the last one: after any
    number of ticks followed by a tick at a time [last] that is not
    earlier than any of them, the state is the one a single tick at
    [last] gives.  In particular a second tick at the same time changes
    nothing. *)
Theorem expiryWorker_is_its_last_tick
    (ticks : list time.Time) (last : time.Time) (db : DB) :
  Forall (fun t => t <= last) ticks ->
  expiryWorker (ticks ++ [last])%list db = expiryTick last db.
Proof.
  intros H. revert db. induction H as [|t ticks Ht _ IH]; intros db.
  - reflexivity.
  - unfold expiryWorker in *. simpl. rewrite IH. apply expiryTick_absorbs. exact Ht.
Qed.

Lemma expiryWorker_is_its_last_tick_witness :
  Forall (fun t => t <= 3000) [1000; 2000; 3000]
  /\ expiryWorker ([1000; 2000; 3000] ++ [3000])%list (DB_Set "k" (Some "v") 5 1000 empty_db).2
     = expiryTick 3000 (DB_Set "k" (Some "v") 5 1000 empty_db).2.
Proof.
  assert (Forall (fun t => t <= 3000) [1000; 2000; 3000]) as H
    by (repeat constructor; lia).
  split; [exact H|].
  exact (expiryWorker_is_its_last_tick [1000; 2000; 3000] 3000
           (DB_Set "k" (Some "v") 5 1000 empty_db).2 H).
Defined.

(** ** The protocol *)

Lemma string_app_assoc (a b c : string) : (a ++ b) ++ c = a ++ (b ++ c).
Proof.
  induction a as [|x a IH]; [reflexivity|].
  change (String x ((a ++ b) ++ c) = String x (a ++ (b ++ c))).
  rewrite IH. reflexivity.
Qed.

Section Replies.

Context {lib : GoLib}.

Lemma dispatch_one_reply now args db :
  exists r, (dispatch now args db).1 = [r] /\ terminated r.
Proof.
  unfold dispatch.
  repeat (destruct (decide _) as [_|_]).
  - eexists. split; [reflexivity | eexists; reflexivity].
  - destruct (length args <? 3)%nat.
    + eexists. split; [reflexivity | eexists; reflexivity].
    + destruct (DB_Set _ _ _ now db) as [[err|] db1].
      * eexists. split; [reflexivity|]. exists ("-ERR " ++ err).
        rewrite string_app_assoc. reflexivity.
      * eexists. split; [reflexivity | eexists; reflexivity].
  - destruct (negb (length args =? 2)%nat).
    + eexists. split; [reflexivity | eexists; reflexivity].
    + destruct (Get _ now db) as [[v [|]] db1].
      * eexists. split; [reflexivity|].
        exists ("$" ++ decimal (Z.of_nat (String.length (string_of_bytes v)))
                  ++ CRLF ++ string_of_bytes v).
        rewrite !string_app_assoc. reflexivity.
      * eexists. split; [reflexivity | eexists; reflexivity].
  - destruct (length args <? 2)%nat.
    + eexists. split; [reflexivity | eexists; reflexivity].
    + destruct (Del (tail args) db) as [removed db1].
      eexists. split; [reflexivity|]. exists (":" ++ decimal removed).
      rewrite string_app_assoc. reflexivity.
  - destruct (SaveSnapshot db) as [[err|] db1].
    + eexists. split; [reflexivity|]. exists ("-ERR " ++ err).
      rewrite string_app_assoc. reflexivity.
    + eexists. split; [reflexivity | eexists; reflexivity].
  - eexists. split; [reflexivity | eexists; reflexivity].
Qed.

Lemma handleLine_replies now line db :
  (strings_TrimSpace line = EmptyString /\ (handleLine now line db).1 = [])
  \/ (strings_TrimSpace line <> EmptyString
      /\ exists r, (handleLine now line db).1 = [r] /\ terminated r).
Proof.
  unfold handleLine.
  destruct (decide (strings_TrimSpace line = EmptyString)) as [E|E].
  - left. split; [exact E | reflexivity].
  - right. split; [exact E|].
    destruct (length (splitArgs (strings_TrimSpace line)) =? 0)%nat.
    + eexists. split; [reflexivity | eexists; reflexivity].
    + apply dispatch_one_reply.
Qed.

(** X7.  The handler writes exactly one reply for every line that is
    not blank and none for a blank line, whatever the line holds: the
    number of replies written on a connection is the number of its
    lines that [TrimSpace] does not empty. *)
Theorem handleConn_one_reply_per_line
    (input : list (time.Time * string)) (db : DB) :
  length (handleConn input db).1
  = length (filter (fun p => strings_TrimSpace p.2 <> EmptyString) input).
Proof.
  revert db. induction input as [|[now line] input IH]; intros db; [reflexivity|].
  cbn [handleConn].
  destruct (handleLine now line db) as [out db1] eqn:E.
  specialize (IH db1). destruct (handleConn input db1) as [outs db2].
  cbn [fst] in *. rewrite length_app, IH.
  destruct (handleLine_replies now line db) as [[Hb Ho]|[Hb (r & Ho & _)]];
    rewrite E in Ho; cbn [fst] in Ho; subst out.
  - rewrite filter_cons_False by (cbn; tauto). reflexivity.
  - rewrite filter_cons_True by exact Hb. reflexivity.
Qed.

(** X8.  Every reply the handler writes, the error replies included,
    ends with CR LF. *)
Theorem handleConn_replies_end_with_CRLF
    (input : list (time.Time * string)) (db : DB) :
  Forall terminated (handleConn input db).1.
Proof.
  revert db. induction input as [|[now line] input IH]; intros db; [constructor|].
  cbn [handleConn].
  destruct (handleLine now line db) as [out db1] eqn:E.
  specialize (IH db1). destruct (handleConn input db1) as [outs db2].
  cbn [fst] in *. apply Forall_app. split; [|exact IH].
  destruct (handleLine_replies now line db) as [[_ Ho]|[_ (r & Ho & Hr)]];
    rewrite E in Ho; cbn [fst] in Ho; subst out.
  - constructor.
  - constructor; [exact Hr | constructor].
Qed.

End Replies.

Section Commands.

Context {lib : GoLib}.

Lemma dispatch_SET_data now args db :
  strings_ToUpper (nth 0 args EmptyString) = "SET" -> (3 <= length args)%nat ->
  data (dispatch now args db).2
  = <[nth 1 args EmptyString :=
        entry_of (Some (nth 2 args EmptyString)) (px_ttl args) now]> (data db).
Proof.
  intros Hcmd Hlen. rewrite dispatch_SET by assumption.
  rewrite <- DB_Set_data.
  destruct (DB_Set _ _ _ now db) as [[err|] db1]; reflexivity.
Qed.

Lemma dispatch_GET now args db :
  strings_ToUpper (nth 0 args EmptyString) = "GET" -> length args = 2%nat ->
  dispatch now args db
  = match Get (nth 1 args EmptyString) now db with
    | ((v, true), db) =>
      (["$" ++ decimal (Z.of_nat (String.length (string_of_bytes v)))
          ++ CRLF ++ string_of_bytes v ++ CRLF], db)
    | ((_, false), db) => (["$-1" ++ CRLF], db)
    end.
Proof.
  intros Hcmd Hlen. unfold dispatch. rewrite Hcmd, Hlen.
  destruct (decide ("GET" = "PING")) as [?|_]; [discriminate|].
  destruct (decide ("GET" = "SET")) as [?|_]; [discriminate|].
  destruct (decide ("GET" = "GET")) as [_|?]; [|congruence].
  reflexivity.
Qed.

(** X9.  A command with the wrong number of arguments is refused and
    changes nothing: SET with fewer than three words, GET with any
    number of words but two, DEL with fewer than two get the error reply
    that names the command, and the state stays as it was. *)
Theorem wrong_number_of_args_changes_nothing
    (now : time.Time) (args : list string) (db : DB) :
  (strings_ToUpper (nth 0 args EmptyString) = "SET" -> (length args < 3)%nat ->
   dispatch now args db = (["-ERR wrong number of args for SET" ++ CRLF], db))
  /\ (strings_ToUpper (nth 0 args EmptyString) = "GET" -> length args <> 2%nat ->
      dispatch now args db = (["-ERR wrong number of args for GET" ++ CRLF], db))
  /\ (strings_ToUpper (nth 0 args EmptyString) = "DEL" -> (length args < 2)%nat ->
      dispatch now args db = (["-ERR wrong number of args for DEL" ++ CRLF], db)).
Proof.
  split; [|split]; intros Hcmd Hlen; unfold dispatch; rewrite Hcmd.
  - destruct (decide ("SET" = "PING")) as [?|_]; [discriminate|].
    destruct (decide ("SET" = "SET")) as [_|?]; [|congruence].
    destruct (Nat.ltb_spec (length args) 3) as [_|?]; [reflexivity | lia].
  - destruct (decide ("GET" = "PING")) as [?|_]; [discriminate|].
    destruct (decide ("GET" = "SET")) as [?|_]; [discriminate|].
    destruct (decide ("GET" = "GET")) as [_|?]; [|congruence].
    destruct (Nat.eqb_spec (length args) 2) as [?|_]; [contradiction | reflexivity].
  - destruct (decide ("DEL" = "PING")) as [?|_]; [discriminate|].
    destruct (decide ("DEL" = "SET")) as [?|_]; [discriminate|].
    destruct (decide ("DEL" = "GET")) as [?|_]; [discriminate|].
    destruct (decide ("DEL" = "DEL")) as [_|?]; [|congruence].
    destruct (Nat.ltb_spec (length args) 2) as [_|?]; [reflexivity | lia].
Qed.

(** X10.  GET after SET: after a SET of three words, whether its reply
    was OK or the error of a failed append, a GET of the same key at any
    time replies with the bulk string of the value: its length, CR LF,
    the value, CR LF. *)
Theorem GET_after_SET_replies_the_value
    (now now' : time.Time) (s g k v : string) (db : DB) :
  strings_ToUpper s = "SET" -> strings_ToUpper g = "GET" ->
  (dispatch now' [g; k] (dispatch now [s; k; v] db).2).1
  = ["$" ++ decimal (Z.of_nat (String.length v)) ++ CRLF ++ v ++ CRLF].
Proof.
  intros Hs Hg.
  assert (data (dispatch now [s; k; v] db).2 !! k = Some (mkEntry (Some v) time.zero))
    as Hent.
  { rewrite dispatch_SET_data by (simpl; (assumption || lia)).
    rewrite px_ttl_absent by (simpl; lia). apply lookup_insert_eq. }
  rewrite dispatch_GET by (simpl; (assumption || lia)).
  cbn [nth]. rewrite (Get_found _ _ _ _ Hent) by reflexivity. reflexivity.
Qed.

(** X11.  The ttl of a SET.  With at least five words, the fourth being
    PX in any case and the fifth, with "ms" appended, a duration [d] that
    [time.ParseDuration] accepts, the entry expires at [now + d] when [d]
    is positive and never otherwise.  With fewer than five words, or a
    fourth word that is not PX, the entry never expires: the further
    words are ignored without an error. *)
Theorem SET_sets_the_expiry_from_PX
    (now : time.Time) (args : list string) (db : DB) :
  strings_ToUpper (nth 0 args EmptyString) = "SET" -> (3 <= length args)%nat ->
  let stored expiry :=
    data (dispatch now args db).2
    = <[nth 1 args EmptyString := mkEntry (Some (nth 2 args EmptyString)) expiry]>
        (data db) in
  (forall d,
     (5 <= length args)%nat ->
     strings_ToUpper (nth 3 args EmptyString) = "PX" ->
     time_ParseDuration (nth 4 args EmptyString ++ "ms") = inl d ->
     stored (if 0 <? d then time.Add now d else time.zero))
  /\ ((length args < 5)%nat \/ strings_ToUpper (nth 3 args EmptyString) <> "PX" ->
      stored time.zero).
Proof.
  intros Hcmd Hlen stored. subst stored. cbv beta.
  rewrite dispatch_SET_data by assumption. unfold entry_of, px_ttl. split.
  - intros d H5 Hpx Hd. rewrite Hd, Hpx.
    destruct (Nat.leb_spec 5 (length args)) as [_|?]; [|lia].
    rewrite bool_decide_eq_true_2 by reflexivity. reflexivity.
  - intros [H5|Hpx].
    + destruct (Nat.leb_spec 5 (length args)) as [?|_]; [lia | reflexivity].
    + rewrite bool_decide_eq_false_2 by exact Hpx.
      rewrite andb_false_r. reflexivity.
Qed.

End Commands.

Lemma wrong_number_of_args_changes_nothing_witness :
  strings_ToUpper (GoLib := ascii_lib) (nth 0 ["get"; "a"; "b"] EmptyString) = "GET"
  /\ length ["get"; "a"; "b"] <> 2%nat
  /\ @dispatch ascii_lib 1000 ["get"; "a"; "b"] empty_db
     = (["-ERR wrong number of args for GET" ++ CRLF], empty_db).
Proof.
  split; [reflexivity|]. split; [discriminate|].
  apply (@wrong_number_of_args_changes_nothing ascii_lib 1000 ["get"; "a"; "b"] empty_db);
    [reflexivity | discriminate].
Defined.

Lemma GET_after_SET_replies_the_value_witness :
  strings_ToUpper (GoLib := ascii_lib) "set" = "SET"
  /\ strings_ToUpper (GoLib := ascii_lib) "Get" = "GET"
  /\ (@dispatch ascii_lib 5 ["Get"; "foo"]
        (@dispatch ascii_lib 1000 ["set"; "foo"; "bar"] failing_db).2).1
     = ["$" ++ decimal 3 ++ CRLF ++ "bar" ++ CRLF].
Proof.
  split; [reflexivity|]. split; [reflexivity|].
  exact (@GET_after_SET_replies_the_value ascii_lib 1000 5 "set" "Get" "foo" "bar"
           failing_db eq_refl eq_refl).
Defined.

Lemma SET_sets_the_expiry_from_PX_witness :
  strings_ToUpper (GoLib := ascii_lib)
    (nth 0 ["SET"; "foo"; "bar"; "px"; "100"] EmptyString) = "SET"
  /\ (3 <= length ["SET"; "foo"; "bar"; "px"; "100"])%nat
  /\ (5 <= length ["SET"; "foo"; "bar"; "px"; "100"])%nat
  /\ strings_ToUpper (GoLib := ascii_lib)
       (nth 3 ["SET"; "foo"; "bar"; "px"; "100"] EmptyString) = "PX"
  /\ time_ParseDuration (GoLib := ascii_lib) ("100" ++ "ms") = inl 100000000
  /\ data (@dispatch ascii_lib 1000 ["SET"; "foo"; "bar"; "px"; "100"] empty_db).2
     = <["foo" := mkEntry (Some "bar") 100001000]> ∅.
Proof.
  split; [reflexivity|]. split; [simpl; lia|]. split; [simpl; lia|].
  split; [reflexivity|]. split; [reflexivity|].
  apply (proj1 (@SET_sets_the_expiry_from_PX ascii_lib 1000
                  ["SET"; "foo"; "bar"; "px"; "100"] empty_db
                  eq_refl ltac:(simpl; lia)) 100000000);
    [simpl; lia | reflexivity | reflexivity].
Defined.

(** ** The log *)

Lemma Marshal_aof_record cmd key value ttl :
  json.Marshal (aof_record cmd key value ttl) = record_members cmd key value ttl.
Proof.
  unfold aof_record, record_members.
  destruct value as [v|]; destruct (0 <? ttl); reflexivity.
Qed.

(** X12.  The record of the log.  When the write and the flush succeed,
    [appendAOF] adds exactly one line to the end of the file, the object
    with the members cmd and key, then ttl_ms (the ttl in whole
    milliseconds) only when the ttl is positive, then value only when
    the value is not nil; it returns no error and changes nothing
    else. *)
Theorem appendAOF_writes_one_record
    (cmd key : string) (value : option string) (ttl : time.Duration) (db : DB) :
  io db = [] ->
  appendAOF cmd key value ttl db
  = (None,
     mkDB (data db)
          (aof db ++ [JsonLine
             ([("cmd", json.JString cmd); ("key", json.JString key)]
              ++ (if 0 <? ttl
                  then [("ttl_ms", json.JNumber (Z.quot ttl time.Millisecond))]
                  else [])
              ++ match value with
                 | Some v => [("value", json.JString v)]
                 | None => []
                 end)])%list
          (snapshot db) []).
Proof.
  intros Hio. rewrite appendAOF_quiet by exact Hio.
  rewrite Marshal_aof_record. unfold set_aof, record_members. rewrite Hio.
  reflexivity.
Qed.

Lemma appendAOF_writes_one_record_witness :
  io empty_db = []
  /\ appendAOF "SET" "foo" (Some "bar") 1500000 empty_db
     = (None,
        mkDB ∅ [JsonLine [("cmd", json.JString "SET"); ("key", json.JString "foo");
                          ("ttl_ms", json.JNumber 1); ("value", json.JString "bar")]]
             None []).
Proof.
  split; [reflexivity|].
  exact (appendAOF_writes_one_record "SET" "foo" (Some "bar") 1500000 empty_db eq_refl).
Defined.

Lemma syscall_io_rest db e rest :
  io db = e :: rest -> syscall db = (e, mkDB (data db) (aof db) (snapshot db) rest).
Proof. unfold syscall. intros ->. reflexivity. Qed.

Lemma appendAOF_prefix cmd key value ttl db :
  aof db `prefix_of` aof (appendAOF cmd key value ttl db).2.
Proof.
  unfold appendAOF.
  destruct (syscall db) as [err db1] eqn:E1.
  assert (aof db1 = aof db) as A1 by (rewrite <- (syscall_aof db), E1; reflexivity).
  destruct err as [e|]; simpl; [rewrite A1; reflexivity|].
  rewrite syscall_aof. simpl. rewrite A1. apply prefix_app_r. reflexivity.
Qed.

Lemma Del_loop_prefix keys n db :
  aof db `prefix_of` aof (Del_loop keys n db).2.
Proof.
  revert n db. induction keys as [|k keys IH]; intros n db; cbn [Del_loop];
    [reflexivity|].
  destruct (data db !! k); [|apply IH].
  destruct (appendAOF "DEL" k None 0 (set_data (delete k) db)) as [err db1] eqn:E.
  etransitivity; [|apply IH].
  change db1 with (err, db1).2. rewrite <- E.
  apply (appendAOF_prefix "DEL" k None 0 (set_data (delete k) db)).
Qed.

Lemma SaveSnapshot_aof db : aof (SaveSnapshot db).2 = aof db.
Proof.
  unfold SaveSnapshot.
  destruct (syscall db) as [err db1] eqn:E1.
  assert (aof db1 = aof db) as A1 by (rewrite <- (syscall_aof db), E1; reflexivity).
  destruct err; exact A1.
Qed.

Section LogGrows.

Context {lib : GoLib}.

Lemma dispatch_prefix now args db :
  aof db `prefix_of` aof (dispatch now args db).2.
Proof.
  unfold dispatch.
  repeat (destruct (decide _) as [_|_]); try reflexivity.
  - destruct (length args <? 3)%nat; [reflexivity|].
    pose proof (appendAOF_prefix "SET" (nth 1 args EmptyString)
                  (Some (nth 2 args EmptyString))) as H.
    rewrite DB_Set_unfold.
    match goal with |- context [appendAOF "SET" ?k ?v ?t ?d] =>
      specialize (H t d); destruct (appendAOF "SET" k v t d) as [[err|] db1] end;
      exact H.
  - destruct (negb (length args =? 2)%nat); [reflexivity|].
    unfold Get. destruct (data db !! _) as [e|]; [|reflexivity].
    destruct (expired now e); [reflexivity|].
    destruct e as [v x]; reflexivity.
  - destruct (length args <? 2)%nat; [reflexivity|].
    pose proof (Del_loop_prefix (tail args) 0 db) as H. unfold Del.
    destruct (Del_loop (tail args) 0 db) as [n db1]. exact H.
  - pose proof (SaveSnapshot_aof db) as H.
    destruct (SaveSnapshot db) as [[err|] db1]; simpl in *; rewrite H; reflexivity.
Qed.

(** X13.  The log only grows: whatever lines a connection sends, the
    log after serving them starts with the log as it was before; no
    command removes or rewrites a line.  The reaper never writes to the
    log. *)
Theorem handleConn_only_appends_to_the_log
    (input : list (time.Time * string)) (now : time.Time) (db : DB) :
  aof db `prefix_of` aof (handleConn input db).2
  /\ aof (expiryTick now db) = aof db.
Proof.
  split; [|reflexivity].
  revert db. induction input as [|[t line] input IH]; intros db; [reflexivity|].
  cbn [handleConn].
  destruct (handleLine t line db) as [out db1] eqn:E.
  specialize (IH db1). destruct (handleConn input db1) as [outs db2].
  cbn [snd] in *. etransitivity; [|exact IH].
  change db1 with (out, db1).2. rewrite <- E. unfold handleLine.
  destruct (decide _); [reflexivity|].
  destruct (_ =? _)%nat; [reflexivity|]. apply dispatch_prefix.
Qed.

End LogGrows.

(** ** Restart *)

Lemma appendAOF_write_fails_state cmd key value ttl db e rest :
  io db = Some e :: rest ->
  appendAOF cmd key value ttl db
  = (Some e, mkDB (data db) (aof db) (snapshot db) rest).
Proof. intros Hio. unfold appendAOF. rewrite (syscall_io_rest _ _ _ Hio). reflexivity. Qed.

Lemma restart_ext {lib : GoLib} clock (a b : DB) :
  aof a = aof b -> snapshot a = snapshot b -> restart clock a = restart clock b.
Proof. unfold restart. intros -> ->. reflexivity. Qed.

(** X14.  Memory and log diverge on a failed write.  When the write to
    the log fails, [Set] has stored the entry and returns the error, and
    [Del] of a present key has removed it and counts it, but the log is
    as it was: the store a restart rebuilds is the one it would have
    rebuilt before the command, without the SET and with the deleted
    key as the log has it. *)
Theorem failed_write_is_forgotten_by_restart
    {lib : GoLib} (clock : nat -> time.Time)
    (key : string) (value : option string) (ttl : time.Duration)
    (now : time.Time) (db : DB) (e : string) (rest : list error) :
  io db = Some e :: rest ->
  ((DB_Set key value ttl now db).1 = Some e
   /\ data (DB_Set key value ttl now db).2 !! key
      = Some (mkEntry value (if 0 <? ttl then time.Add now ttl else time.zero))
   /\ restart clock (DB_Set key value ttl now db).2 = restart clock db)
  /\ (is_Some (data db !! key) ->
      (Del [key] db).1 = 1
      /\ data (Del [key] db).2 !! key = None
      /\ restart clock (Del [key] db).2 = restart clock db).
Proof.
  intros Hio. split.
  - rewrite DB_Set_unfold.
    rewrite (appendAOF_write_fails_state _ _ _ _ _ e rest) by exact Hio.
    split; [reflexivity|]. split; [apply lookup_insert_eq|].
    apply restart_ext; reflexivity.
  - intros [ent Hent]. unfold Del.
    rewrite (Del_loop_present _ _ _ _ _ Hent).
    rewrite (appendAOF_write_fails_state _ _ _ _ _ e rest) by exact Hio.
    split; [reflexivity|]. split; [apply lookup_delete_eq|].
    apply restart_ext; reflexivity.
Qed.

Lemma failed_write_is_forgotten_by_restart_witness :
  io failing_db = [Some "write appendonly.aof: no space left on device"]
  /\ is_Some (data failing_db !! "k")
  /\ data (Del ["k"] failing_db).2 !! "k" = None
  /\ restart (lib := ascii_lib) (fun _ => 0) (Del ["k"] failing_db).2
     = restart (lib := ascii_lib) (fun _ => 0) failing_db.
Proof.
  assert (is_Some (data failing_db !! "k")) as H by (eexists; reflexivity).
  split; [reflexivity|]. split; [exact H|].
  destruct (@failed_write_is_forgotten_by_restart ascii_lib (fun _ => 0)
              "k" None 0 0 failing_db _ _ eq_refl) as [_ Hd].
  destruct (Hd H) as (_ & H2 & H3). split; [exact H2 | exact H3].
Defined.

Section RestartOfOneSet.

Context {lib : GoLib}.
Hypothesis ToUpper_SET : strings_ToUpper "SET" = "SET".

Variable clock : nat -> time.Time.

Lemma loadAOF_line_SET_nil now key ttl m :
  utf8.ValidString key = true -> ttl < 2 ^ 63 ->
  loadAOF_line now (JsonLine (json.Marshal (aof_record "SET" key None ttl))) m
  = <[key := mkEntry (Some "<nil>") (replayed_expiry ttl now)]> m.
Proof.
  intros Hk Hmax. rewrite Marshal_aof_record.
  unfold record_members, replayed_expiry.
  destruct (Z.ltb_spec 0 ttl) as [Hpos|Hneg].
  - destruct (whole_milliseconds ttl Hpos Hmax) as (Hms0 & Hms53 & Hle).
    set (ms := Z.quot ttl time.Millisecond) in *.
    unfold loadAOF_line. cbn [app].
    change (json.Unmarshal _ !! "cmd") with (Some (I_string "SET")).
    change (json.Unmarshal _ !! "key") with (Some (I_string (utf8.coerce key))).
    change (json.Unmarshal _ !! "value") with (@None iface).
    change (json.Unmarshal _ !! "ttl_ms") with (Some (I_float64 (json.float64_of_Z ms))).
    simpl Sprintf_v. rewrite ToUpper_SET, (coerce_valid _ Hk).
    destruct (decide ("SET" = "SET")) as [_|?]; [|congruence].
    rewrite float64_of_Z_exact by lia.
    assert (int64_of_float64 ms = ms) as ->.
    { unfold int64_of_float64.
      destruct (Z.leb_spec (- 2 ^ 63) ms); [|lia].
      destruct (Z.ltb_spec ms (2 ^ 63)); [reflexivity | lia]. }
    rewrite wrap64_small by (unfold time.Millisecond in *; lia).
    destruct (Z.ltb_spec 0 ms) as [Hp|Hz].
    + destruct (Z.ltb_spec 0 (ms * time.Millisecond)) as [_|?];
        [|unfold time.Millisecond in *; lia].
      rewrite alter_insert_eq. reflexivity.
    + assert (ms = 0) as -> by lia. reflexivity.
  - assert (Z.quot ttl time.Millisecond <= 0) as Hq.
    { unfold time.Millisecond. apply Z.quot_le_upper_bound; lia. }
    destruct (Z.ltb_spec 0 (Z.quot ttl time.Millisecond)) as [?|_]; [lia|].
    unfold loadAOF_line. cbn [app].
    change (json.Unmarshal _ !! "cmd") with (Some (I_string "SET")).
    change (json.Unmarshal _ !! "key") with (Some (I_string (utf8.coerce key))).
    change (json.Unmarshal _ !! "value") with (@None iface).
    change (json.Unmarshal _ !! "ttl_ms") with (@None iface).
    simpl Sprintf_v. rewrite ToUpper_SET, (coerce_valid _ Hk).
    destruct (decide ("SET" = "SET")) as [_|?]; [|congruence].
    reflexivity.
Qed.

(** The store rebuilt after a [Set] whose append succeeded: the store
    rebuilt before it, with the line of the SET replayed last. *)
Lemma restart_after_Set key value ttl t0 db :
  io db = [] ->
  Forall fits (aof (DB_Set key value ttl t0 db).2) ->
  data (restart clock (DB_Set key value ttl t0 db).2)
  = loadAOF_line (clock (length (aof db)))
      (JsonLine (json.Marshal (aof_record "SET" key value ttl)))
      (data (restart clock db)).
Proof.
  intros Hio. rewrite DB_Set_unfold, appendAOF_quiet by exact Hio.
  cbn [snd set_aof set_data aof data snapshot io]. intros Hfit.
  unfold restart, loadAOF. cbn [syscall io fst snd set_data data aof].
  rewrite Scan_fits by exact Hfit.
  apply Forall_app in Hfit as [Hfit _]. rewrite (Scan_fits _ Hfit).
  cbn [aof set_aof set_data]. rewrite loadAOF_loop_app. reflexivity.
Qed.

(** X15.  The reaper does not write to the log, so a restart brings a
    reaped key back.  After a [Set] with a positive ttl whose append
    succeeded and a tick of the reaper after the expiry, the key is gone
    from the map; the store rebuilt from the log holds it again with the
    same value, expiring at the time of its replay plus the ttl in whole
    milliseconds, and never when the ttl was below one millisecond. *)
Theorem reaped_key_is_back_after_restart
    (key v : string) (ttl : time.Duration) (t0 now : time.Time) (db : DB) :
  io db = [] ->
  Forall fits (aof (DB_Set key (Some v) ttl t0 db).2) ->
  utf8.ValidString key = true -> utf8.ValidString v = true ->
  0 < ttl < 2 ^ 63 -> 0 <= t0 -> t0 + ttl < now ->
  data (expiryTick now (DB_Set key (Some v) ttl t0 db).2) !! key = None
  /\ data (restart clock (expiryTick now (DB_Set key (Some v) ttl t0 db).2)) !! key
     = Some (mkEntry (Some v)
               (if 0 <? Z.quot ttl time.Millisecond
                then time.Add (clock (length (aof db)))
                       (Z.quot ttl time.Millisecond * time.Millisecond)
                else time.zero)).
Proof.
  intros Hio Hfit Hk Hv [Hpos Hmax] Ht0 Hnow. split.
  - rewrite expiryTick_lookup, DB_Set_data, lookup_insert_eq.
    assert (expired now (entry_of (Some v) ttl t0) = true) as ->; [|reflexivity].
    apply expired_spec. unfold entry_of, time.Add, time.zero.
    destruct (Z.ltb_spec 0 ttl); simpl; lia.
  - assert (restart clock (expiryTick now (DB_Set key (Some v) ttl t0 db).2)
            = restart clock (DB_Set key (Some v) ttl t0 db).2) as ->
      by (apply restart_ext; reflexivity).
    rewrite (restart_after_Set _ _ _ _ _ Hio Hfit).
    rewrite (loadAOF_line_SET ToUpper_SET _ _ _ _ _ Hk Hv Hmax).
    apply lookup_insert_eq.
Qed.

(** X16.  A [Set] of the nil slice is logged without a value and comes
    back from a restart as the five bytes "<nil>": the map holds the nil
    value for the key, the store rebuilt from the log the text that
    [fmt.Sprintf("%v", nil)] gives. *)
Theorem nil_value_is_replayed_as_text
    (key : string) (ttl : time.Duration) (t0 : time.Time) (db : DB) :
  io db = [] ->
  Forall fits (aof (DB_Set key None ttl t0 db).2) ->
  utf8.ValidString key = true -> ttl < 2 ^ 63 ->
  Value <$> data (DB_Set key None ttl t0 db).2 !! key = Some None
  /\ Value <$> data (restart clock (DB_Set key None ttl t0 db).2) !! key
     = Some (Some "<nil>").
Proof.
  intros Hio Hfit Hk Hmax. split.
  - rewrite DB_Set_data, lookup_insert_eq. reflexivity.
  - rewrite (restart_after_Set _ _ _ _ _ Hio Hfit).
    rewrite (loadAOF_line_SET_nil _ _ _ _ Hk Hmax).
    rewrite lookup_insert_eq. reflexivity.
Qed.

End RestartOfOneSet.

Lemma reaped_key_is_back_after_restart_witness :
  io empty_db = []
  /\ Forall fits (aof (DB_Set "k" (Some "v") 500000 1000 empty_db).2)
  /\ 0 < 500000 < 2 ^ 63 /\ 0 <= 1000 /\ 1000 + 500000 < 600000
  /\ data (expiryTick 600000 (DB_Set "k" (Some "v") 500000 1000 empty_db).2) !! "k" = None
  /\ data (restart (lib := ascii_lib) (fun _ => 700000)
             (expiryTick 600000 (DB_Set "k" (Some "v") 500000 1000 empty_db).2)) !! "k"
     = Some (mkEntry (Some "v") time.zero).
Proof.
  assert (Forall fits (aof (DB_Set "k" (Some "v") 500000 1000 empty_db).2)) as Hfit
    by (apply Forall_fits; vm_compute; reflexivity).
  split; [reflexivity|]. split; [exact Hfit|].
  split; [lia|]. split; [lia|]. split; [lia|].
  exact (@reaped_key_is_back_after_restart ascii_lib eq_refl (fun _ => 700000)
           "k" "v" 500000 1000 600000 empty_db eq_refl Hfit eq_refl eq_refl
           ltac:(lia) ltac:(lia) ltac:(lia)).
Defined.

Lemma nil_value_is_replayed_as_text_witness :
  io empty_db = []
  /\ Forall fits (aof (DB_Set "k" None 0 1000 empty_db).2)
  /\ 0 < 2 ^ 63
  /\ Value <$> data (restart (lib := ascii_lib) (fun _ => 2000)
                       (DB_Set "k" None 0 1000 empty_db).2) !! "k"
     = Some (Some "<nil>").
Proof.
  assert (Forall fits (aof (DB_Set "k" None 0 1000 empty_db).2)) as Hfit
    by (apply Forall_fits; vm_compute; reflexivity).
  split; [reflexivity|]. split; [exact Hfit|]. split; [lia|].
  apply (@nil_value_is_replayed_as_text ascii_lib eq_refl (fun _ => 2000)
           "k" 0 1000 empty_db eq_refl Hfit eq_refl ltac:(lia)).
Defined.

(** ** The scanner of loadAOF *)

Lemma Scan_app_fits l1 l2 : Forall fits l1 -> Scan (l1 ++ l2) = (l1 ++ Scan l2)%list.
Proof.
  induction 1 as [|l l1 Hl _ IH]; [reflexivity|].
  cbn [app Scan]. unfold fits in Hl.
  destruct (Z.ltb_spec (Z.of_nat (String.length (line_text l))) MaxScanTokenSize);
    [rewrite IH; reflexivity | lia].
Qed.

Lemma Scan_too_long l rest : ~ fits l -> Scan (l :: rest) = [].
Proof.
  unfold fits. intros Hl. cbn [Scan].
  destruct (Z.ltb_spec (Z.of_nat (String.length (line_text l))) MaxScanTokenSize);
    [contradiction | reflexivity].
Qed.

Lemma not_fits l :
  (Z.of_nat (String.length (line_text l)) <? MaxScanTokenSize) = false -> ~ fits l.
Proof. unfold fits. rewrite Z.ltb_ge. lia. Qed.

Section Scanner.

Context {lib : GoLib}.

Lemma loadAOF_loop_clock_ext c1 c2 i lines m :
  (forall j, (i <= j)%nat -> c1 j = c2 j) ->
  loadAOF_loop c1 i lines m = loadAOF_loop c2 i lines m.
Proof.
  revert i m. induction lines as [|l lines IH]; intros i m H; [reflexivity|].
  cbn [loadAOF_loop]. rewrite (H i) by lia. apply IH. intros j Hj. apply H. lia.
Qed.

Lemma loadAOF_loop_shift clock i lines m :
  loadAOF_loop clock (S i) lines m = loadAOF_loop (fun j => clock (S j)) i lines m.
Proof.
  revert i m. induction lines as [|l lines IH]; intros i m; [reflexivity|].
  cbn [loadAOF_loop]. apply IH.
Qed.

(** X17.  A line that does not fit the buffer of the scanner ends the
    replay without an error: [loadAOF] on a file whose first lines fit
    and whose next line has 65536 bytes or more returns nil and leaves
    the map as the first lines alone make it; the records after the long
    line are not replayed. *)
Theorem loadAOF_stops_at_a_line_that_does_not_fit
    (clock : nat -> time.Time) (m : gmap string entry)
    (before : list aof_line) (long : aof_line) (after : list aof_line)
    (dump : option snapshot_doc) :
  Forall fits before -> ~ fits long ->
  loadAOF clock (mkDB m (before ++ long :: after) dump [])
  = (None,
     mkDB (data (loadAOF clock (mkDB m before dump [])).2)
          (before ++ long :: after) dump []).
Proof.
  intros Hb Hl. unfold loadAOF. cbn [syscall io fst snd set_data data aof snapshot].
  rewrite (Scan_app_fits _ _ Hb), (Scan_too_long _ _ Hl), app_nil_r.
  rewrite (Scan_fits _ Hb). reflexivity.
Qed.

Lemma loadAOF_skips_junk_from clock i m before t after :
  fits (JunkLine t) ->
  loadAOF_loop clock i (Scan (before ++ JunkLine t :: after)) m
  = loadAOF_loop
      (fun j => if (j <? i + length before)%nat then clock j else clock (S j))
      i (Scan (before ++ after)) m.
Proof.
  intros Hj. revert i m. induction before as [|l before IH]; intros i m.
  - cbn [app length]. cbn [Scan]. unfold fits in Hj.
    destruct (Z.ltb_spec (Z.of_nat (String.length (line_text (JunkLine t))))
                MaxScanTokenSize) as [_|?]; [|lia].
    cbn [loadAOF_loop loadAOF_line]. rewrite loadAOF_loop_shift.
    apply loadAOF_loop_clock_ext. intros j Hle.
    destruct (Nat.ltb_spec j (i + 0)); [lia | reflexivity].
  - cbn [app Scan].
    destruct (Z.of_nat (String.length (line_text l)) <? MaxScanTokenSize);
      [|reflexivity].
    cbn [loadAOF_loop length]. rewrite IH.
    destruct (Nat.ltb_spec i (i + S (length before))) as [_|?]; [|lia].
    apply loadAOF_loop_clock_ext. intros j _.
    rewrite Nat.add_succ_r. reflexivity.
Qed.

(** X18.  A line that is not a JSON object is skipped without an error
    and without a trace: [loadAOF] on a file with such a line (short
    enough for the scanner) returns nil and builds the map that it
    builds on the file without the line, given the same readings of the
    clock for the lines that remain. *)
Theorem loadAOF_skips_a_line_that_is_not_JSON
    (clock : nat -> time.Time) (m : gmap string entry)
    (before : list aof_line) (t : string) (after : list aof_line)
    (dump : option snapshot_doc) :
  fits (JunkLine t) ->
  (loadAOF clock (mkDB m (before ++ JunkLine t :: after) dump [])).1 = None
  /\ data (loadAOF clock (mkDB m (before ++ JunkLine t :: after) dump [])).2
     = data (loadAOF
               (fun j => if (j <? length before)%nat then clock j else clock (S j))
               (mkDB m (before ++ after) dump [])).2.
Proof.
  intros Hj. split; [reflexivity|].
  unfold loadAOF. cbn [syscall io fst snd set_data data aof].
  apply (loadAOF_skips_junk_from clock 0 m before t after Hj).
Qed.

End Scanner.

Lemma loadAOF_stops_at_a_line_that_does_not_fit_witness :
  Forall fits [foo_line] /\ ~ fits long_line
  /\ data (@loadAOF ascii_lib (fun _ => 1000)
             (mkDB ∅ ([foo_line] ++ long_line :: [del_line "foo"]) None [])).2
     = {["foo" := mkEntry (Some "bar") time.zero]}.
Proof.
  assert (Forall fits [foo_line]) as H1 by (apply Forall_fits; vm_compute; reflexivity).
  assert (~ fits long_line) as H2 by (apply not_fits; vm_compute; reflexivity).
  split; [exact H1|]. split; [exact H2|].
  rewrite (@loadAOF_stops_at_a_line_that_does_not_fit ascii_lib (fun _ => 1000) ∅
             [foo_line] long_line [del_line "foo"] None H1 H2).
  vm_compute. reflexivity.
Defined.

Lemma loadAOF_skips_a_line_that_is_not_JSON_witness :
  fits (JunkLine "{'cmd':")
  /\ data (@loadAOF ascii_lib (fun _ => 1000)
             (mkDB ∅ ([foo_line] ++ JunkLine "{'cmd':" :: [del_line "foo"]) None [])).2
     = data (@loadAOF ascii_lib (fun _ => 1000)
               (mkDB ∅ ([foo_line] ++ [del_line "foo"]) None [])).2.
Proof.
  assert (fits (JunkLine "{'cmd':")) as H by (unfold fits; vm_compute; reflexivity).
  split; [exact H|].
  exact (proj2 (@loadAOF_skips_a_line_that_is_not_JSON ascii_lib (fun _ => 1000) ∅
                  [foo_line] "{'cmd':" [del_line "foo"] None H)).
Defined.

(** ** The snapshot and the start *)

(** X19.  What SAVE writes.  When the write succeeds, [SaveSnapshot]
    returns nil and replaces the snapshot by one object that has exactly
    one member for every key of the map, and no other member, holding
    the value as a string and [UnixNano] of the expiry; the map and the
    log are untouched.  When the write fails it returns the error, and
    the map and the log are untouched as well. *)
Theorem SaveSnapshot_writes_one_member_per_key (db : DB) :
  (io db = [] ->
   exists doc,
     SaveSnapshot db = (None, mkDB (data db) (aof db) (Some doc) [])
     /\ NoDup doc.*1
     /\ length doc = size (data db)
     /\ forall k o,
          (k, o) ∈ doc <->
          exists e, data db !! k = Some e
            /\ o = [("expiresAt", json.JNumber (time.UnixNano (ExpiresAt e)));
                    ("value", json.JString (string_of_bytes (Value e)))])
  /\ (forall e rest,
        io db = Some e :: rest ->
        (SaveSnapshot db).1 = Some e
        /\ data (SaveSnapshot db).2 = data db
        /\ aof (SaveSnapshot db).2 = aof db).
Proof.
  split.
  - intros Hio. destruct (SaveSnapshot_members db Hio) as (doc & Hs & Hm).
    exists doc. split; [rewrite Hs; unfold set_snapshot; rewrite Hio; reflexivity|].
    split; [|split; [|exact Hm]].
    + unfold SaveSnapshot in Hs. rewrite (syscall_quiet _ Hio) in Hs.
      injection Hs as <-.
      rewrite <- list_fmap_compose.
      match goal with |- NoDup (_ <$> ?l) => change (NoDup (l.*1)) end.
      rewrite merge_sort_Permutation. apply NoDup_fst_map_to_list.
    + unfold SaveSnapshot in Hs. rewrite (syscall_quiet _ Hio) in Hs.
      injection Hs as <-.
      rewrite length_fmap, merge_sort_Permutation, length_map_to_list.
      apply map_size_fmap.
  - intros e rest Hio. split; [|split; [apply SaveSnapshot_data | apply SaveSnapshot_aof]].
    unfold SaveSnapshot. rewrite (syscall_io_rest _ _ _ Hio). reflexivity.
Qed.

Lemma SaveSnapshot_writes_one_member_per_key_witness :
  io (DB_Set "k" (Some "v") 5 1000 empty_db).2 = []
  /\ exists doc,
       snapshot (SaveSnapshot (DB_Set "k" (Some "v") 5 1000 empty_db).2).2 = Some doc
       /\ length doc = 1%nat.
Proof.
  split; [reflexivity|].
  destruct (SaveSnapshot_writes_one_member_per_key (DB_Set "k" (Some "v") 5 1000 empty_db).2)
    as [H _].
  destruct (H eq_refl) as (doc & Hs & _ & Hl & _).
  exists doc. split; [rewrite Hs; reflexivity | exact Hl].
Defined.

(** X20.  Startup fails only on the file, never on what it holds.  When
    opening the log and seeking to its start succeed, [NewDB] returns a
    store whatever the lines of the file are: the map is the replay of
    the lines the scanner delivers into the empty map, the file and the
    snapshot are as they were.  When the open or the seek fails, it
    returns that error and no store. *)
Theorem NewDB_fails_only_on_open_or_seek
    {lib : GoLib} (clock : nat -> time.Time) (file : list aof_line)
    (dump : option snapshot_doc) (os : list error) :
  ((forall e, os !! 0%nat <> Some (Some e)) ->
   (forall e, os !! 1%nat <> Some (Some e)) ->
   NewDB clock file dump os
   = (Some (mkDB (loadAOF_loop clock 0 (Scan file) ∅) file dump (drop 2 os)), None))
  /\ (forall e,
        os !! 0%nat = Some (Some e)
        \/ (os !! 0%nat = Some None /\ os !! 1%nat = Some (Some e)) ->
        NewDB clock file dump os = (None, Some e)).
Proof.
  split.
  - intros H0 H1.
    destruct os as [|[e|] os']; [reflexivity | exfalso; exact (H0 e eq_refl) |].
    destruct os' as [|[e'|] rest];
      [reflexivity | exfalso; exact (H1 e' eq_refl) | reflexivity].
  - intros e [H|[H0 H1]].
    + destruct os as [|[e0|] rest]; try discriminate.
      injection H as ->. reflexivity.
    + destruct os as [|[e0|] [|[e1|] rest]]; try discriminate.
      injection H1 as ->. reflexivity.
Qed.

Lemma NewDB_fails_only_on_open_or_seek_witness :
  @NewDB ascii_lib (fun _ => 1000) [JunkLine "not json"; foo_line] None []
  = (Some (mkDB {["foo" := mkEntry (Some "bar") time.zero]}
             [JunkLine "not json"; foo_line] None []), None).
Proof.
  rewrite (proj1 (@NewDB_fails_only_on_open_or_seek ascii_lib (fun _ => 1000)
                    [JunkLine "not json"; foo_line] None []));
    [|intros e; discriminate|intros e; discriminate].
  vm_compute. reflexivity.
Defined.

(** ** A value too long for the scanner *)

Lemma string_app_cons x (a b : string) : String x a ++ b = String x (a ++ b).
Proof. reflexivity. Qed.

Lemma string_length_app (a b : string) :
  String.length (a ++ b) = (String.length a + String.length b)%nat.
Proof.
  induction a as [|x a IH]; [reflexivity|].
  rewrite string_app_cons. cbn [String.length]. rewrite IH. reflexivity.
Qed.

Lemma substring_prefix_length (n : nat) (s : string) :
  (n <= String.length s)%nat -> String.length (substring 0 n s) = n.
Proof.
  revert s. induction n as [|n IH]; intros s Hn.
  - destruct s; reflexivity.
  - destruct s as [|c s]; [simpl in Hn; lia|].
    cbn [substring String.length]. rewrite IH; [reflexivity | simpl in Hn; lia].
Qed.

Lemma DecodeRune_size (c : ascii) (s : string) :
  (1 <= snd (utf8.DecodeRuneInString (String c s)) <= 4)%nat
  /\ (snd (utf8.DecodeRuneInString (String c s)) <= String.length (String c s))%nat.
Proof.
  unfold utf8.DecodeRuneInString.
  repeat match goal with
         | |- context [if ?b then _ else _] => destruct b
         | |- context [match ?x with EmptyString => _ | String _ _ => _ end] =>
           destruct x
         end; cbn [snd String.length]; lia.
Qed.

Lemma escape_length (c : ascii) : (1 <= String.length (json.escape c))%nat.
Proof.
  unfold json.escape.
  repeat match goal with |- context [if ?b then _ else _] => destruct b end;
    cbn [String.length]; try lia.
  rewrite string_length_app. cbn [String.length]. lia.
Qed.

Lemma quote_from_length (s : string) (skip : nat) :
  (String.length s <= String.length (json.quote_from skip s) + skip)%nat.
Proof.
  revert skip. induction s as [|c s IH]; intros skip; [simpl; lia|].
  cbn [json.quote_from String.length].
  destruct skip as [|p]; [|specialize (IH p); lia].
  destruct (byte_val c <? 128).
  - rewrite string_length_app. specialize (IH 0%nat).
    assert (1 <= String.length (if json.htmlSafe c then String c EmptyString
                                else json.escape c))%nat
      by (destruct (json.htmlSafe c); [simpl; lia | apply escape_length]).
    lia.
  - destruct (DecodeRune_size c s) as [[H1 H4] Hlen].
    destruct (utf8.DecodeRuneInString (String c s)) as [r size].
    cbn [snd] in *.
    destruct (utf8.invalid_head (String c s)).
    + rewrite string_length_app. specialize (IH 0%nat). cbn [String.length]. lia.
    + destruct ((r =? 8232) || (r =? 8233)).
      * rewrite string_length_app. cbn [String.length].
        specialize (IH (size - 1)%nat). lia.
      * rewrite string_length_app, substring_prefix_length by exact Hlen.
        specialize (IH (size - 1)%nat). lia.
Qed.

Lemma string_length_app_r (a b : string) :
  (String.length b <= String.length (a ++ b))%nat.
Proof. rewrite string_length_app. lia. Qed.

Lemma quote_length (v : string) :
  (String.length v <= String.length (json.quote v))%nat.
Proof.
  unfold json.quote. cbn [String.length]. rewrite string_length_app.
  pose proof (quote_from_length v 0). lia.
Qed.

Lemma long_value_does_not_fit cmd key v ttl :
  MaxScanTokenSize <= Z.of_nat (String.length v) ->
  ~ fits (JsonLine (json.Marshal (aof_record cmd key (Some v) ttl))).
Proof.
  intros Hv. unfold fits. rewrite Marshal_aof_record. unfold record_members.
  cbn [line_text]. unfold json.text.
  assert (String.length v
          <= String.length (json.member_text ("value", json.JString v)))%nat as Hm.
  { unfold json.member_text. cbn [fst snd json.scalar_text].
    etransitivity; [apply quote_length|].
    etransitivity; [|apply string_length_app_r]. apply string_length_app_r. }
  assert (forall o, String.length v <= String.length (json.members_text o) ->
            String.length v <= String.length ("{" ++ json.members_text o ++ "}"))%nat
    as Hb.
  { intros o Ho. etransitivity; [exact Ho|].
    etransitivity; [|apply string_length_app_r]. rewrite string_length_app. lia. }
  assert (forall p q o, String.length v <= String.length (json.members_text (q :: o)) ->
            String.length v <= String.length (json.members_text (p :: q :: o)))%nat
    as Hc.
  { intros p q o Ho. cbn [json.members_text] in *. etransitivity; [exact Ho|].
    etransitivity; [|apply string_length_app_r]. apply string_length_app_r. }
  destruct (0 <? ttl); cbn [app];
    match goal with |- ~ (Z.of_nat (String.length ?t) < _) =>
      assert (String.length v <= String.length t)%nat as Hle
    end;
    try (apply Hb; repeat apply Hc; exact Hm); lia.
Qed.

Lemma apply_ops_prefix ops db : aof db `prefix_of` aof (apply_ops ops db).
Proof.
  revert db. induction ops as [|o ops IH]; intros db; [reflexivity|].
  unfold apply_ops in *. cbn [foldl]. etransitivity; [|apply IH].
  destruct o as [key value ttl now|keys]; cbn [apply_op].
  - rewrite DB_Set_unfold.
    apply (appendAOF_prefix "SET" key value ttl (set_data _ db)).
  - apply Del_loop_prefix.
Qed.

(** X21.  A value of 64 KiB or more cuts the log.  After a [Set] of a
    value of at least 65536 bytes, whose append succeeds and which the
    store serves from memory, the store rebuilt at a restart is the one
    rebuilt from the log as it was before that [Set]: neither the long
    value nor any operation logged after it is replayed. *)
Theorem long_value_cuts_the_replay
    {lib : GoLib} (clock : nat -> time.Time)
    (key v : string) (ttl : time.Duration) (t0 : time.Time)
    (ops : list op) (db : DB) :
  io db = [] -> Forall fits (aof db) ->
  MaxScanTokenSize <= Z.of_nat (String.length v) ->
  (DB_Set key (Some v) ttl t0 db).1 = None
  /\ data (DB_Set key (Some v) ttl t0 db).2 !! key
     = Some (mkEntry (Some v) (if 0 <? ttl then time.Add t0 ttl else time.zero))
  /\ data (restart clock (apply_ops ops (DB_Set key (Some v) ttl t0 db).2))
     = data (restart clock db).
Proof.
  intros Hio Hfit Hlong.
  split; [rewrite DB_Set_unfold, appendAOF_quiet by exact Hio; reflexivity|].
  split; [rewrite DB_Set_data; apply lookup_insert_eq|].
  destruct (apply_ops_prefix ops (DB_Set key (Some v) ttl t0 db).2) as [lines Hl].
  unfold restart, loadAOF. cbn [syscall io fst snd set_data data aof].
  rewrite Hl. rewrite DB_Set_unfold, appendAOF_quiet by exact Hio.
  cbn [snd aof set_aof set_data]. rewrite <- app_assoc. cbn [app].
  rewrite (Scan_app_fits _ _ Hfit), Scan_too_long, app_nil_r, (Scan_fits _ Hfit);
    [reflexivity|].
  apply long_value_does_not_fit. exact Hlong.
Qed.

Lemma long_value_cuts_the_replay_witness :
  io empty_db = [] /\ Forall fits (aof empty_db)
  /\ MaxScanTokenSize <= Z.of_nat (String.length long_text)
  /\ data (restart (lib := ascii_lib) (fun _ => 5000)
             (apply_ops [OpSet "foo" (Some "bar") 0 2000]
                (DB_Set "big" (Some long_text) 0 1000 empty_db).2))
     = data (restart (lib := ascii_lib) (fun _ => 5000) empty_db).
Proof.
  assert (MaxScanTokenSize <= Z.of_nat (String.length long_text)) as H
    by (vm_compute; discriminate).
  split; [reflexivity|]. split; [constructor|]. split; [exact H|].
  exact (proj2 (proj2 (@long_value_cuts_the_replay ascii_lib (fun _ => 5000)
                         "big" long_text 0 1000 [OpSet "foo" (Some "bar") 0 2000]
                         empty_db eq_refl (List.Forall_nil fits) H))).
Defined.
